(** * Beam-envelope plotting script: geometry pipeline

    Shallow embedding of [001_plot_envelopes_3d.py]: the envelope sizer
    ([compute_beam_size]), the three cross-section generators ([ellipse],
    [make_screen], [make_rectangular_screen]), the ruled-surface mesher
    ([mesh_from_polygons]) and the two drivers that feed it
    ([plot_beam_size], [plot_apertures]).

    Conventions.
    - Python floats are idealised as real numbers ([R]): rounding is not
      modelled, [np.sqrt], [np.cos], [np.sin] are the real functions.
    - Python integers are unbounded: [Z] where the script subtracts, [nat]
      for lengths and shapes, which cannot be negative.
    - An exception is a value: a fallible function returns [Py.result]. *)

From Stdlib Require Import Reals ZArith List Bool Lia Lra.
Import ListNotations.

(** ** Python exceptions *)

Module Py.

Inductive exn : Set := ValueError | AssertionError | IndexError.

Inductive result (A : Type) : Type :=
| Ok (a : A)
| Raise (e : exn).
Arguments Ok {A} a.
Arguments Raise {A} e.

Definition bind {A B : Type} (m : result A) (k : A -> result B) : result B :=
  match m with
  | Ok a => k a
  | Raise e => Raise e
  end.

(** A list comprehension whose body may raise: the first exception, in
    iteration order, aborts the whole comprehension. *)
Fixpoint comprehension {A B : Type} (body : A -> result B) (l : list A)
  : result (list B) :=
  match l with
  | [] => Ok []
  | a :: l' =>
      bind (body a) (fun b =>
      bind (comprehension body l') (fun bs => Ok (b :: bs)))
  end.

(** [range(n)] on a Python integer: empty when [n <= 0]. *)
Definition range (n : Z) : list Z := map Z.of_nat (seq 0 (Z.to_nat n)).

(** [l[i]] for a non-negative index. *)
Definition getitem {A : Type} (l : list A) (i : nat) : result A :=
  match nth_error l i with
  | Some a => Ok a
  | None => Raise IndexError
  end.

End Py.

Notation "x <- m ;; k" := (Py.bind m (fun x => k))
  (at level 61, m at next level, right associativity).

(** ** The pieces of numpy, scipy and pyvista the script calls *)

Definition point : Type := (R * R * R)%type.

Module Np.

(** An n-dimensional float array: its shape and its buffer in row-major
    order. *)
Record ndarray : Type := mk_ndarray { shape : list nat; data : list R }.

(** A 2-D array of shape (n, 3) is kept as the list of its rows. *)
Definition flat (rows : list point) : list R :=
  flat_map (fun '(a, b, c) => [a; b; c]) rows.

(** [a.reshape(-1, 3)]: the buffer read three scalars at a time. *)
Fixpoint reshape3 (buf : list R) : list point :=
  match buf with
  | a :: b :: c :: rest => (a, b, c) :: reshape3 rest
  | _ => []
  end.

(** [np.array(polys)] on a list of (P, 3) arrays: a (N, P, 3) array when all
    have the same number of rows, the 1-D empty array of shape (0,) for the
    empty list, [ValueError] for a ragged list. *)
Definition array (polys : list (list point)) : Py.result ndarray :=
  match polys with
  | [] => Py.Ok (mk_ndarray [0%nat] [])
  | p0 :: _ =>
      if forallb (fun p => Nat.eqb (length p) (length p0)) polys
      then Py.Ok (mk_ndarray [length polys; length p0; 3%nat]
                             (flat (concat polys)))
      else Py.Raise Py.ValueError
  end.

(** [np.hstack(arrays)] on 1-D integer arrays: concatenation; numpy refuses
    an empty sequence ("need at least one array to concatenate"). *)
Definition hstack (arrays : list (list Z)) : Py.result (list Z) :=
  match arrays with
  | [] => Py.Raise Py.ValueError
  | _ => Py.Ok (concat arrays)
  end.

(** [np.linspace(start, stop, num)], with the default [endpoint=True]:
    [num] samples with step [(stop - start) / (num - 1)], the last one set
    to [stop]. *)
Definition linspace (start stop : R) (num : nat) : list R :=
  let step := ((stop - start) / INR (num - 1))%R in
  match num with
  | O => []
  | S O => [start]
  | S n =>
      map (fun k => (INR k * step + start)%R) (seq 0 n) ++ [stop]
  end.

(** [np.tile(row, (n, 1))]. *)
Definition tile (row : point) (n : nat) : list point := repeat row n.

(** Elementwise [a + b] of two (n, 3) arrays of the same shape. *)
Definition padd (p q : point) : point :=
  let '(px, py, pz) := p in
  let '(qx, qy, qz) := q in
  ((px + qx)%R, (py + qy)%R, (pz + qz)%R).

Fixpoint add_rows (a b : list point) : list point :=
  match a, b with
  | p :: a', q :: b' => padd p q :: add_rows a' b'
  | _, _ => []
  end.

(** [np.column_stack([xs, np.zeros_like(xs), ys])]: the columns must have
    the same length. *)
Fixpoint zip_xz (xs ys : list R) : list point :=
  match xs, ys with
  | x :: xs', y :: ys' => (x, 0%R, y) :: zip_xz xs' ys'
  | _, _ => []
  end.

Definition column_stack_x0y (xs ys : list R) : Py.result (list point) :=
  if Nat.eqb (length xs) (length ys) then Py.Ok (zip_xz xs ys)
  else Py.Raise Py.ValueError.

(** [np.where(mask)[0]]: the indices of the true entries, ascending. *)
Fixpoint where_from (i : nat) (mask : list bool) : list nat :=
  match mask with
  | [] => []
  | b :: mask' =>
      if b then i :: where_from (S i) mask' else where_from (S i) mask'
  end.

Definition where_ (mask : list bool) : list nat := where_from 0 mask.

End Np.

(** [scipy.spatial.transform.Rotation]: a rotation is stored as a unit
    quaternion (x, y, z, w) and applied through its rotation matrix. *)
Module Rotation.

Record t : Type := mk { qx : R; qy : R; qz : R; qw : R }.

(** [Rotation.from_euler('z', theta)]. *)
Definition from_euler_z (theta : R) : t :=
  mk 0 0 (sin (theta / 2)) (cos (theta / 2)).

Definition as_matrix (r : t) : point * point * point :=
  let x := qx r in let y := qy r in let z := qz r in let w := qw r in
  (((x * x - y * y - z * z + w * w)%R,
    (2 * (x * y - z * w))%R,
    (2 * (x * z + y * w))%R),
   ((2 * (x * y + z * w))%R,
    (- (x * x) + y * y - z * z + w * w)%R,
    (2 * (y * z - x * w))%R),
   ((2 * (x * z - y * w))%R,
    (2 * (y * z + x * w))%R,
    (- (x * x) - y * y + z * z + w * w)%R)).

Definition dot (a b : point) : R :=
  let '(ax, ay, az) := a in
  let '(bx, by_, bz) := b in
  (ax * bx + ay * by_ + az * bz)%R.

Definition apply1 (r : t) (p : point) : point :=
  let '(r0, r1, r2) := as_matrix r in
  (dot r0 p, dot r1 p, dot r2 p).

(** [r.apply(points)] on an (n, 3) array. *)
Definition apply (r : t) (pts : list point) : list point :=
  map (apply1 r) pts.

End Rotation.

(** [pyvista.PolyData(vertices, faces)]: the vertex buffer and the flat
    connectivity array, each cell written as its size followed by that many
    vertex indices. *)
Module Pv.

Record PolyData : Type := mk { points : list point; faces : list Z }.

(** Reading the connectivity array back into cells. *)
Fixpoint cells_fuel (fuel : nat) (conn : list Z) : option (list (list Z)) :=
  match conn with
  | [] => Some []
  | n :: rest =>
      match fuel with
      | O => None
      | S fuel' =>
          if (0 <=? n)%Z && (Z.to_nat n <=? length rest)%nat then
            option_map (cons (firstn (Z.to_nat n) rest))
                       (cells_fuel fuel' (skipn (Z.to_nat n) rest))
          else None
      end
  end.

Definition cells (m : PolyData) : option (list (list Z)) :=
  cells_fuel (length (faces m)) (faces m).

End Pv.

(** ** Ruled-surface mesher *)

(** The quadrilateral written for running index [i]. *)
Definition quad (points_per_poly i : Z) : list Z :=
  [4; i; i + 1; points_per_poly + i + 1; points_per_poly + i]%Z.

(** The [if] clause of the comprehension. *)
Definition keep_face (close : bool) (points_per_poly i : Z) : bool :=
  close || negb ((i mod points_per_poly) =? points_per_poly - 1)%Z.

Definition face_indices (close : bool) (num_polys points_per_poly : Z)
  : list Z :=
  let num_faces := (points_per_poly * (num_polys - 1) - 1)%Z in
  filter (keep_face close points_per_poly) (Py.range num_faces).

Definition mesh_from_polygons (pts : Np.ndarray) (close : bool)
  : Py.result Pv.PolyData :=
  match Np.shape pts with
  | [num_polys; points_per_poly; dim] =>
      if Nat.eqb dim 3 then
        let vertices := Np.reshape3 (Np.data pts) in
        faces <- Np.hstack
                   (map (quad (Z.of_nat points_per_poly))
                        (face_indices close (Z.of_nat num_polys)
                                      (Z.of_nat points_per_poly))) ;;
        Py.Ok (Pv.mk vertices faces)
      else Py.Raise Py.AssertionError
  | _ => Py.Raise Py.ValueError
  end.

(** ** Optics and survey tables

    A table is a list of rows, so that all its columns have one length; a
    column is read with [map]. *)

Module Twiss.

Record row : Type :=
  mk_row { s : R; x : R; y : R; betx : R; bety : R; dx : R; dy : R }.

Record table : Type := mk { rows : list row; gamma0 : R }.

End Twiss.

Module Survey.

Record row : Type := mk_row { X : R; Y : R; Z : R; theta : R }.

Definition table : Type := list row.

End Survey.

Module Aperture.

Record row : Type :=
  mk_row { polygon_x_discrete : list R;
           polygon_y_discrete : list R;
           aperture_mask : bool }.

Definition table : Type := list row.

End Aperture.

(** Elementwise arithmetic on 1-D arrays. *)
Module Vec.

Fixpoint map2 (f : R -> R -> R) (a b : list R) : list R :=
  match a, b with
  | u :: a', v :: b' => f u v :: map2 f a' b'
  | _, _ => []
  end.

Definition add : list R -> list R -> list R := map2 Rplus.
Definition mul : list R -> list R -> list R := map2 Rmult.
Definition scale_l (c : R) (a : list R) : list R := map (fun v => (c * v)%R) a.
Definition scale_r (a : list R) (c : R) : list R := map (fun v => (v * c)%R) a.

(** [np.column_stack([a, b, c])] on three columns of one length. *)
Fixpoint column_stack3 (a b c : list R) : list point :=
  match a, b, c with
  | u :: a', v :: b', w :: c' => (u, v, w) :: column_stack3 a' b' c'
  | _, _, _ => []
  end.

End Vec.

(** ** Envelope sizer *)

Definition nemitt_x : R := 25 / 10000000.
Definition nemitt_y : R := 25 / 10000000.
Definition n_sigmas : R := 3.
Definition sigma_delta : R := 8 / 10000.

Record beam_size : Type :=
  mk_beam_size {
    bs_s : list R; bs_x : list R; bs_sigx : list R;
    bs_y : list R; bs_sigy : list R;
    bs_sx : list R; bs_sy : list R; bs_sz : list R; bs_theta : list R }.

Definition compute_beam_size (survey : Survey.table) (twiss : Twiss.table)
  : beam_size :=
  let sx := map Survey.X survey in
  let sy := map Survey.Y survey in
  let sz := map Survey.Z survey in
  let theta := map Survey.theta survey in
  let s := map Twiss.s (Twiss.rows twiss) in
  let x := map Twiss.x (Twiss.rows twiss) in
  let y := map Twiss.y (Twiss.rows twiss) in
  let bx := map Twiss.betx (Twiss.rows twiss) in
  let by_ := map Twiss.bety (Twiss.rows twiss) in
  let dx := map Twiss.dx (Twiss.rows twiss) in
  let dy := map Twiss.dy (Twiss.rows twiss) in
  let gamma0 := Twiss.gamma0 twiss in
  let sigx :=
    Vec.add (Vec.scale_l n_sigmas
               (map sqrt (Vec.scale_l (nemitt_x / gamma0) bx)))
            (Vec.scale_r (map Rabs dx) sigma_delta) in
  let sigy :=
    Vec.add (Vec.scale_l n_sigmas
               (map sqrt (Vec.scale_l (nemitt_y / gamma0) by_)))
            (Vec.scale_r (map Rabs dy) sigma_delta) in
  mk_beam_size s x sigx y sigy sx sy sz theta.

(** ** Cross-section generators *)

Definition ellipse (rxy rz beam_xy beam_z x y z theta : R) : list point :=
  let ts := Np.linspace 0 (2 * PI) 20 in
  let points_xz :=
    map (fun t => ((rxy * cos t + beam_xy)%R, 0%R, (rz * sin t + beam_z)%R))
        ts in
  let points_xz := Rotation.apply (Rotation.from_euler_z theta) points_xz in
  Np.add_rows points_xz (Np.tile (x, y, z) (length ts)).

Definition make_screen (xs ys : list R) (x y z theta : R)
  : Py.result (list point) :=
  points_xz <- Np.column_stack_x0y xs ys ;;
  let points_xz := Rotation.apply (Rotation.from_euler_z theta) points_xz in
  Py.Ok (Np.add_rows points_xz (Np.tile (x, y, z) (length points_xz))).

Definition make_rectangular_screen
  (x_min x_max y_min y_max x y z theta : R) (close : bool) : list point :=
  let x_max := if negb close then 0%R else x_max in
  let points_xz :=
    [ (x_max, 0%R, y_min);
      (x_min, 0%R, y_min);
      (x_min, 0%R, y_max);
      (x_max, 0%R, y_max) ] in
  let points_xz := Rotation.apply (Rotation.from_euler_z theta) points_xz in
  Np.add_rows points_xz (Np.tile (x, y, z) (length points_xz)).

(** ** Drivers

    The range selection on the tables and the calls on the plotter are left
    out: a driver takes the selected rows and returns what it hands to the
    plotter. *)

(** The cross-sections of the beam envelope, one per index below
    [min_len]. *)
Definition beam_cross_sections (b : beam_size) (min_len : nat) (scale : R)
  : Py.result (list (list point)) :=
  Py.comprehension
    (fun i =>
       sigx_i <- Py.getitem (bs_sigx b) i ;;
       sigy_i <- Py.getitem (bs_sigy b) i ;;
       x_i <- Py.getitem (bs_x b) i ;;
       y_i <- Py.getitem (bs_y b) i ;;
       sx_i <- Py.getitem (bs_sx b) i ;;
       sz_i <- Py.getitem (bs_sz b) i ;;
       sy_i <- Py.getitem (bs_sy b) i ;;
       theta_i <- Py.getitem (bs_theta b) i ;;
       Py.Ok (ellipse (sigx_i * scale) (sigy_i * scale)
                      (x_i * scale) (y_i * scale) sx_i sz_i sy_i theta_i))
    (seq 0 min_len).

(** The control points of the closed-orbit spline. *)
Definition orbit_center (b : beam_size) (min_len : nat) (scale : R)
  : list point :=
  let sx := firstn min_len (bs_sx b) in
  let sy := firstn min_len (bs_sy b) in
  let sz := firstn min_len (bs_sz b) in
  let theta := firstn min_len (bs_theta b) in
  let x := firstn min_len (bs_x b) in
  let y := firstn min_len (bs_y b) in
  Vec.column_stack3
    (Vec.add sx (Vec.scale_r (Vec.mul (map cos theta) x) scale))
    (Vec.add sz (Vec.scale_r (Vec.mul (map sin theta) x) scale))
    (Vec.add sy (Vec.scale_r y scale)).

Definition plot_beam_size (tw : Twiss.table) (sv : Survey.table) (scale : R)
  : Py.result (Pv.PolyData * list point) :=
  let b := compute_beam_size sv tw in
  let min_len := Nat.min (length (bs_x b)) (length (bs_theta b)) in
  polys <- beam_cross_sections b min_len scale ;;
  pts <- Np.array polys ;;
  surface <- mesh_from_polygons pts true ;;
  let center := orbit_center b min_len scale in
  Py.Ok (surface, center).

(** The cross-sections of the aperture, one per valid row. *)
Definition aperture_cross_sections
  (ap : Aperture.table) (sv : Survey.table) (scale : R)
  : Py.result (list (list point)) :=
  let sx := map Survey.X sv in
  let sy := map Survey.Y sv in
  let sz := map Survey.Z sv in
  let theta := map Survey.theta sv in
  let xs := map Aperture.polygon_x_discrete ap in
  let ys := map Aperture.polygon_y_discrete ap in
  let aper_indices := Np.where_ (map Aperture.aperture_mask ap) in
  Py.comprehension
    (fun i =>
       xs_i <- Py.getitem xs i ;;
       ys_i <- Py.getitem ys i ;;
       sx_i <- Py.getitem sx i ;;
       sz_i <- Py.getitem sz i ;;
       sy_i <- Py.getitem sy i ;;
       theta_i <- Py.getitem theta i ;;
       make_screen (Vec.scale_r xs_i scale) (Vec.scale_r ys_i scale)
                   sx_i sz_i sy_i theta_i)
    aper_indices.

Definition plot_apertures
  (ap : Aperture.table) (sv : Survey.table) (close : bool) (scale : R)
  : Py.result Pv.PolyData :=
  polys <- aperture_cross_sections ap sv scale ;;
  pts <- Np.array polys ;;
  mesh_from_polygons pts close.

(** ** Helpers of the script outside the two drivers *)

(** [cut_around]: the cut positions handed to [line.cut_at_s]. The lookup
    of the element in the line table is left out: [s_around] is the
    position it returned. *)
Definition cut_around (s_around length : R) (resolution : nat) : list R :=
  let s_start := (s_around - length / 2)%R in
  let s_end := (s_around + length / 2)%R in
  Np.linspace s_start s_end resolution.

(** [clip], on one element: Python's [min] and [max] of two numbers. *)
Definition clip (x max_val : R) : R := Rmin max_val (Rmax x (- max_val)).

(** The table of rectangular extents read by
    [plot_rectangular_apertures]. *)
Module Extent.

Record row : Type :=
  mk_row { x_aper_low : R; x_aper_high : R;
           y_aper_low : R; y_aper_high : R }.

Definition table : Type := list row.

End Extent.

(** The cross-sections of the rectangular aperture, one per row. *)
Definition rectangular_cross_sections
  (ap : Extent.table) (sv : Survey.table) (close : bool) (scale : R)
  : Py.result (list (list point)) :=
  let sx := map Survey.X sv in
  let sy := map Survey.Y sv in
  let sz := map Survey.Z sv in
  let theta := map Survey.theta sv in
  let x_min := Vec.scale_r (map Extent.x_aper_low ap) scale in
  let x_max := Vec.scale_r (map Extent.x_aper_high ap) scale in
  let y_min := Vec.scale_r (map Extent.y_aper_low ap) scale in
  let y_max := Vec.scale_r (map Extent.y_aper_high ap) scale in
  Py.comprehension
    (fun i =>
       x_min_i <- Py.getitem x_min i ;;
       x_max_i <- Py.getitem x_max i ;;
       y_min_i <- Py.getitem y_min i ;;
       y_max_i <- Py.getitem y_max i ;;
       sx_i <- Py.getitem sx i ;;
       sz_i <- Py.getitem sz i ;;
       sy_i <- Py.getitem sy i ;;
       theta_i <- Py.getitem theta i ;;
       Py.Ok (make_rectangular_screen x_min_i x_max_i y_min_i y_max_i
                                      sx_i sz_i sy_i theta_i close))
    (seq 0 (length x_min)).

Definition plot_rectangular_apertures
  (ap : Extent.table) (sv : Survey.table) (close : bool) (scale : R)
  : Py.result Pv.PolyData :=
  polys <- rectangular_cross_sections ap sv close scale ;;
  pts <- Np.array polys ;;
  mesh_from_polygons pts close.

(** ** Vocabulary of the statements *)

(** Position, in the flattened vertex buffer, of point [j] of slice [i]. *)
Definition vertex_index (points_per_poly i j : Z) : Z :=
  (points_per_poly * i + j)%Z.

(** The four corners of [quad], without the leading cell size. *)
Definition quad_corners (points_per_poly i : Z) : list Z :=
  [i; i + 1; points_per_poly + i + 1; points_per_poly + i]%Z.

(** The face between slices [i] and [i + 1] at vertices [j] and [j + 1]. *)
Definition strip_face (P i j : Z) : list Z :=
  [vertex_index P i j; vertex_index P i (j + 1);
   vertex_index P (i + 1) (j + 1); vertex_index P (i + 1) j].

(** The face the mesher writes at the last vertex of slice [i]: its second
    corner is the first vertex of slice [i + 1], its third the first vertex
    of slice [i + 2]. *)
Definition seam_face (P i : Z) : list Z :=
  [vertex_index P i (P - 1); vertex_index P (i + 1) 0;
   vertex_index P (i + 2) 0; vertex_index P (i + 1) (P - 1)].

(** The face list as the specification words it: one face per slice pair
    and vertex, the successor of a vertex taken modulo the polygon size. *)
Definition spec_wrap_face (P i j : Z) : list Z :=
  [vertex_index P i j; vertex_index P i ((j + 1) mod P);
   vertex_index P (i + 1) ((j + 1) mod P); vertex_index P (i + 1) j].

Definition spec_wrap_faces (N P : Z) : list (list Z) :=
  flat_map (fun i => map (spec_wrap_face P i) (Py.range P))
           (Py.range (N - 1)).

(** The number of faces of a mesh, when its connectivity array is
    well-formed. *)
Definition n_faces (m : Pv.PolyData) : option nat :=
  option_map (@length (list Z)) (Pv.cells m).

(** An all-zero array of the given shape. *)
Definition zeros (shape : list nat) : Np.ndarray :=
  Np.mk_ndarray shape (repeat 0%R (fold_right Nat.mul 1%nat shape)).

(** The sampling of the angle parameter as the specification words it:
    [resolution] equidistant values of the half-open interval from 0 to
    2 pi. *)
Definition spec_half_open_ts (resolution : nat) : list R :=
  map (fun k => (INR k * (2 * PI / INR resolution))%R) (seq 0 resolution).

(** A cross-section before rotation and translation, and its placement. *)
Definition place (theta x y z : R) (local : point) : point :=
  let '(lx, ly, lz) := local in
  ((x + (cos theta * lx - sin theta * ly))%R,
   (y + (sin theta * lx + cos theta * ly))%R,
   (z + lz)%R).

Definition third (p : point) : R := snd p.

(** The [k]-th value of the angle parameter of [ellipse], and the point of
    the ellipse at parameter [t] before rotation and translation. *)
Definition ellipse_t (k : nat) : R := (INR k * (2 * PI / 19))%R.

Definition ellipse_local (rxy rz beam_xy beam_z t : R) : point :=
  ((rxy * cos t + beam_xy)%R, 0%R, (rz * sin t + beam_z)%R).

(** The corners of the rectangular screen before rotation and
    translation. *)
Definition rectangle_local (x_min x_max y_min y_max : R) : list point :=
  [ (x_max, 0%R, y_min); (x_min, 0%R, y_min);
    (x_min, 0%R, y_max); (x_max, 0%R, y_max) ].

(** The envelope half-widths of one optics row. *)
Definition sigma_x (gamma0 : R) (r : Twiss.row) : R :=
  (n_sigmas * sqrt (nemitt_x / gamma0 * Twiss.betx r)
   + Rabs (Twiss.dx r) * sigma_delta)%R.

Definition sigma_y (gamma0 : R) (r : Twiss.row) : R :=
  (n_sigmas * sqrt (nemitt_y / gamma0 * Twiss.bety r)
   + Rabs (Twiss.dy r) * sigma_delta)%R.

(** What [plot_beam_size] draws for an optics row paired with the survey
    row of the same index: the envelope cross-section and the orbit
    point. *)
Definition slice_ellipse (gamma0 scale : R) (rf : Twiss.row * Survey.row)
  : list point :=
  let '(r, f) := rf in
  ellipse (sigma_x gamma0 r * scale) (sigma_y gamma0 r * scale)
          (Twiss.x r * scale) (Twiss.y r * scale)
          (Survey.X f) (Survey.Z f) (Survey.Y f) (Survey.theta f).

Definition slice_center (scale : R) (rf : Twiss.row * Survey.row) : point :=
  let '(r, f) := rf in
  ((Survey.X f + cos (Survey.theta f) * Twiss.x r * scale)%R,
   (Survey.Z f + sin (Survey.theta f) * Twiss.x r * scale)%R,
   (Survey.Y f + Twiss.y r * scale)%R).

Definition truncate_twiss (k : nat) (tw : Twiss.table) : Twiss.table :=
  Twiss.mk (firstn k (Twiss.rows tw)) (Twiss.gamma0 tw).

(** What [plot_apertures] draws for an aperture row paired with the survey
    row of the same index. *)
Definition slice_screen (scale : R) (af : Aperture.row * Survey.row)
  : list point :=
  let '(a, f) := af in
  map (place (Survey.theta f) (Survey.X f) (Survey.Z f) (Survey.Y f))
      (Np.zip_xz (Vec.scale_r (Aperture.polygon_x_discrete a) scale)
                 (Vec.scale_r (Aperture.polygon_y_discrete a) scale)).

Definition valid_slice (af : Aperture.row * Survey.row) : bool :=
  Aperture.aperture_mask (fst af).

(** What [plot_rectangular_apertures] draws for an extent row paired with
    the survey row of the same index. *)
Definition slice_rectangle (close : bool) (scale : R)
  (ef : Extent.row * Survey.row) : list point :=
  let '(e, f) := ef in
  make_rectangular_screen
    (Extent.x_aper_low e * scale) (Extent.x_aper_high e * scale)
    (Extent.y_aper_low e * scale) (Extent.y_aper_high e * scale)
    (Survey.X f) (Survey.Z f) (Survey.Y f) (Survey.theta f) close.

(** A point lies in the vertical plane through (x, y) of direction
    [theta]. *)
Definition in_slice_plane (theta x y : R) (p : point) : Prop :=
  let '(px, py, _) := p in
  (sin theta * (px - x) - cos theta * (py - y) = 0)%R.

(** A point lies on the ellipse of radii [a] (horizontal) and [b]
    (vertical) centred at [c], whatever the direction of its plane. *)
Definition on_ellipse (a b : R) (c p : point) : Prop :=
  let '(cx, cy, cz) := c in
  let '(px, py, pz) := p in
  (b * b * ((px - cx) * (px - cx) + (py - cy) * (py - cy))
   + a * a * ((pz - cz) * (pz - cz)) = a * a * (b * b))%R.

(** * Properties *)

(** ** Lists and ranges *)

Lemma seq_offset (a n : nat) : seq a n = map (Nat.add a) (seq 0 n).
Proof.
  revert a; induction n as [|n IH]; intro a; simpl; [reflexivity|].
  rewrite Nat.add_0_r. f_equal.
  rewrite (IH (S a)), (IH 1%nat), map_map.
  apply map_ext; intro k; lia.
Qed.

Lemma range_app (a b : Z) :
  (0 <= a)%Z -> (0 <= b)%Z ->
  Py.range (a + b) = Py.range a ++ map (Z.add a) (Py.range b).
Proof.
  intros Ha Hb. unfold Py.range.
  rewrite Z2Nat.inj_add by assumption.
  rewrite seq_app, map_app. f_equal. simpl.
  rewrite seq_offset, !map_map.
  apply map_ext; intro k. lia.
Qed.

Lemma range_snoc (n : Z) :
  (0 <= n)%Z -> Py.range (n + 1) = Py.range n ++ [n].
Proof.
  intro Hn. rewrite range_app by lia.
  f_equal. simpl. f_equal. lia.
Qed.

Lemma range_nonpos (n : Z) : (n <= 0)%Z -> Py.range n = [].
Proof.
  intro Hn. unfold Py.range.
  replace (Z.to_nat n) with 0%nat by lia. reflexivity.
Qed.

Lemma in_range (n k : Z) : In k (Py.range n) <-> (0 <= k < n)%Z.
Proof.
  unfold Py.range. rewrite in_map_iff. split.
  - intros [i [<- Hi]]. apply in_seq in Hi. lia.
  - intros Hk. exists (Z.to_nat k). split; [lia|].
    apply in_seq. lia.
Qed.

Lemma length_range (n : Z) : length (Py.range n) = Z.to_nat n.
Proof. unfold Py.range. now rewrite length_map, length_seq. Qed.

Lemma filter_all {A : Type} (f : A -> bool) (l : list A) :
  (forall a, In a l -> f a = true) -> filter f l = l.
Proof.
  induction l as [|a l IH]; intro H; simpl; [reflexivity|].
  rewrite (H a) by (now left). f_equal. apply IH.
  intros b Hb. apply H. now right.
Qed.

Lemma length_flat_map_const {A B : Type} (f : A -> list B) (l : list A)
  (n : nat) :
  (forall a, In a l -> length (f a) = n) ->
  length (flat_map f l) = (length l * n)%nat.
Proof.
  induction l as [|a l IH]; intro H; simpl; [reflexivity|].
  rewrite length_app, (H a) by (now left).
  rewrite IH; [reflexivity|]. intros b Hb. apply H. now right.
Qed.

(** ** The connectivity array reads back as the quadrilaterals written *)

Lemma quad_cons (P i : Z) : quad P i = 4%Z :: quad_corners P i.
Proof. reflexivity. Qed.

Lemma cells_fuel_quads (P : Z) (ks : list Z) (fuel : nat) :
  (length ks <= fuel)%nat ->
  Pv.cells_fuel fuel (concat (map (quad P) ks))
  = Some (map (quad_corners P) ks).
Proof.
  revert fuel; induction ks as [|k ks IH]; intros fuel Hfuel.
  - destruct fuel; reflexivity.
  - destruct fuel as [|fuel]; [simpl in Hfuel; lia|].
    simpl in Hfuel. cbn [map concat].
    rewrite quad_cons. cbn [app Pv.cells_fuel].
    change (Z.to_nat 4) with 4%nat.
    replace ((0 <=? 4)%Z && (4 <=? length (quad_corners P k ++ concat (map (quad P) ks)))%nat)
      with true.
    + cbn [quad_corners app firstn skipn].
      rewrite IH by lia. reflexivity.
    + symmetry. apply andb_true_intro. split; [reflexivity|].
      apply Nat.leb_le. rewrite length_app. simpl. lia.
Qed.

Lemma length_concat_quads (P : Z) (ks : list Z) :
  length (concat (map (quad P) ks)) = (5 * length ks)%nat.
Proof.
  induction ks as [|k ks IH]; [reflexivity|].
  cbn [map concat]. rewrite length_app, IH. simpl. lia.
Qed.

Lemma cells_quads (P : Z) (ks : list Z) (vertices : list point) :
  Pv.cells (Pv.mk vertices (concat (map (quad P) ks)))
  = Some (map (quad_corners P) ks).
Proof.
  unfold Pv.cells. cbn [Pv.faces].
  apply cells_fuel_quads. rewrite length_concat_quads. lia.
Qed.

(** What the mesher returns on a 3-D array of 3-D points, in terms of the
    running indices that pass the filter. *)
Lemma mesh_from_polygons_shape (pts : Np.ndarray) (N P : nat) (close : bool) :
  Np.shape pts = [N; P; 3%nat] ->
  mesh_from_polygons pts close =
  match face_indices close (Z.of_nat N) (Z.of_nat P) with
  | [] => Py.Raise Py.ValueError
  | ks => Py.Ok (Pv.mk (Np.reshape3 (Np.data pts))
                       (concat (map (quad (Z.of_nat P)) ks)))
  end.
Proof.
  intro Hs. unfold mesh_from_polygons. rewrite Hs. cbn [Nat.eqb].
  destruct (face_indices close (Z.of_nat N) (Z.of_nat P)); reflexivity.
Qed.

(** ** Which running indices pass the filter *)

Lemma face_indices_closed (N P : Z) :
  face_indices true N P = Py.range (P * (N - 1) - 1).
Proof.
  unfold face_indices. apply filter_all. reflexivity.
Qed.

Section OpenStrip.

Variable P : Z.
Hypothesis P_pos : (1 <= P)%Z.

Lemma keep_open_inside (s j : Z) :
  (0 <= j < P - 1)%Z -> keep_face false P (P * s + j) = true.
Proof.
  intro Hj. unfold keep_face. cbn [orb].
  rewrite Z.add_comm, Z.mul_comm, Z.mod_add by lia.
  rewrite Z.mod_small by lia.
  apply negb_true_iff, Z.eqb_neq. lia.
Qed.

Lemma keep_open_seam (s : Z) : keep_face false P (P * s + (P - 1)) = false.
Proof.
  unfold keep_face. cbn [orb].
  rewrite Z.add_comm, Z.mul_comm, Z.mod_add by lia.
  rewrite Z.mod_small by lia.
  apply negb_false_iff, Z.eqb_eq. reflexivity.
Qed.

Lemma filter_open_block (s : Z) :
  filter (keep_face false P) (map (Z.add (P * s)) (Py.range P))
  = map (Z.add (P * s)) (Py.range (P - 1)).
Proof.
  replace P with ((P - 1) + 1)%Z at 3 by lia.
  rewrite range_snoc by lia.
  rewrite map_app, filter_app. cbn [map filter].
  rewrite keep_open_seam, app_nil_r.
  apply filter_all. intros a Ha.
  apply in_map_iff in Ha. destruct Ha as [j [<- Hj]].
  apply in_range in Hj. now apply keep_open_inside.
Qed.

Lemma filter_open_whole (M : nat) :
  filter (keep_face false P) (Py.range (P * Z.of_nat M))
  = flat_map (fun s => map (Z.add (P * s)) (Py.range (P - 1)))
             (Py.range (Z.of_nat M)).
Proof.
  induction M as [|M IH].
  - change (Z.of_nat 0) with 0%Z. rewrite Z.mul_0_r. reflexivity.
  - rewrite Nat2Z.inj_succ. unfold Z.succ.
    rewrite Z.mul_add_distr_l, Z.mul_1_r.
    rewrite range_app by lia.
    rewrite range_snoc by lia.
    rewrite filter_app, flat_map_app, IH. cbn [flat_map].
    rewrite app_nil_r, filter_open_block. reflexivity.
Qed.

Lemma face_indices_open (N : nat) :
  face_indices false (Z.of_nat N) P
  = flat_map (fun s => map (Z.add (P * s)) (Py.range (P - 1)))
             (Py.range (Z.of_nat N - 1)).
Proof.
  unfold face_indices.
  destruct N as [|M].
  - rewrite (range_nonpos (P * _ - 1)) by lia. reflexivity.
  - replace (Z.of_nat (S M) - 1)%Z with (Z.of_nat M) by lia.
    rewrite <- filter_open_whole.
    destruct M as [|M'].
    + change (Z.of_nat 0) with 0%Z. rewrite Z.mul_0_r. reflexivity.
    + set (n := (P * Z.of_nat (S M') - 1)%Z).
      assert (Hn : (0 <= n)%Z) by (unfold n; nia).
      assert (Hk : keep_face false P n = false).
      { replace n with (P * Z.of_nat M' + (P - 1))%Z by (unfold n; lia).
        apply keep_open_seam. }
      replace (P * Z.of_nat (S M'))%Z with (n + 1)%Z by (unfold n; lia).
      rewrite range_snoc by assumption.
      rewrite filter_app. cbn [filter].
      rewrite Hk, app_nil_r. reflexivity.
Qed.

Lemma length_face_indices_open (N : nat) :
  length (face_indices false (Z.of_nat N) P)
  = (Z.to_nat (Z.of_nat N - 1) * Z.to_nat (P - 1))%nat.
Proof.
  rewrite face_indices_open.
  rewrite length_flat_map_const with (n := Z.to_nat (P - 1)).
  - now rewrite length_range.
  - intros a _. now rewrite length_map, length_range.
Qed.

End OpenStrip.

Lemma mesh_from_polygons_ok (pts : Np.ndarray) (N P : nat) (close : bool) :
  Np.shape pts = [N; P; 3%nat] ->
  (0 < length (face_indices close (Z.of_nat N) (Z.of_nat P)))%nat ->
  mesh_from_polygons pts close =
  Py.Ok (Pv.mk (Np.reshape3 (Np.data pts))
               (concat (map (quad (Z.of_nat P))
                            (face_indices close (Z.of_nat N) (Z.of_nat P))))).
Proof.
  intros Hs Hlen. rewrite (mesh_from_polygons_shape _ _ _ _ Hs).
  destruct (face_indices close (Z.of_nat N) (Z.of_nat P));
    [simpl in Hlen; lia | reflexivity].
Qed.

Lemma face_indices_bound (close : bool) (N P k : Z) :
  In k (face_indices close N P) -> (0 <= k < P * (N - 1) - 1)%Z.
Proof.
  unfold face_indices. intro Hk.
  apply filter_In in Hk. destruct Hk as [Hk _]. now apply in_range.
Qed.

Lemma face_indices_few_slices (close : bool) (N P : nat) :
  (N < 2)%nat -> face_indices close (Z.of_nat N) (Z.of_nat P) = [].
Proof.
  intro HN. unfold face_indices.
  rewrite range_nonpos by nia. reflexivity.
Qed.

Lemma quad_corners_strip (P i j : Z) :
  quad_corners P (P * i + j) = strip_face P i j.
Proof.
  unfold quad_corners, strip_face, vertex_index.
  replace (P * i + j + 1)%Z with (P * i + (j + 1))%Z by lia.
  replace (P + (P * i + j) + 1)%Z with (P * (i + 1) + (j + 1))%Z by lia.
  replace (P + (P * i + j))%Z with (P * (i + 1) + j)%Z by lia.
  reflexivity.
Qed.

Lemma quad_corners_seam (P i : Z) :
  quad_corners P (P * i + (P - 1)) = seam_face P i.
Proof.
  unfold quad_corners, seam_face, vertex_index.
  replace (P * i + (P - 1) + 1)%Z with (P * (i + 1) + 0)%Z by lia.
  replace (P + (P * i + (P - 1)) + 1)%Z with (P * (i + 2) + 0)%Z by lia.
  replace (P + (P * i + (P - 1)))%Z with (P * (i + 1) + (P - 1))%Z by lia.
  reflexivity.
Qed.

(** ** Face counts *)

(** C1, as stated, fails: two slices of two points, closed, give one face,
    not [P * (N - 1) = 2]. *)
Lemma closed_face_count_counterexample :
  (exists m, mesh_from_polygons (zeros [2; 2; 3]%nat) true = Py.Ok m
             /\ n_faces m = Some 1%nat)
  /\ ~ (exists m, mesh_from_polygons (zeros [2; 2; 3]%nat) true = Py.Ok m
                  /\ n_faces m = Some (2 * (2 - 1))%nat).
Proof.
  assert (H : mesh_from_polygons (zeros [2; 2; 3]%nat) true
              = Py.Ok (Pv.mk (Np.reshape3 (Np.data (zeros [2; 2; 3]%nat)))
                             (concat (map (quad 2) [0%Z])))).
  { rewrite (mesh_from_polygons_shape (zeros [2; 2; 3]%nat) 2 2 true eq_refl).
    assert (Hk : face_indices true (Z.of_nat 2) (Z.of_nat 2) = [0%Z])
      by reflexivity.
    now rewrite Hk. }
  split.
  - eexists. split; [exact H|].
    unfold n_faces. now rewrite cells_quads.
  - intros [m [Hm Hn]]. rewrite H in Hm. injection Hm as Hm. subst m.
    unfold n_faces in Hn. cbn in Hn. discriminate Hn.
Qed.

(** C1, amended: on a (N, P, 3) array with at least two slices, the closed
    mesher stops its running index one short of [P * (N - 1)]: whenever that
    leaves at least one face, it returns a mesh of exactly
    [P * (N - 1) - 1] cells, each of four corners, every corner an index
    inside the vertex buffer of [N * P] points. *)
Theorem closed_face_count (pts : Np.ndarray) (N P : nat) :
  Np.shape pts = [N; P; 3%nat] ->
  (2 <= N)%nat -> (1 <= P)%nat -> (2 <= P * (N - 1))%nat ->
  exists m fs,
    mesh_from_polygons pts true = Py.Ok m
    /\ Pv.cells m = Some fs
    /\ length fs = (P * (N - 1) - 1)%nat
    /\ forall f, In f fs ->
         length f = 4%nat
         /\ forall v, In v f -> (0 <= v < Z.of_nat (N * P))%Z.
Proof.
  intros Hs HN HP Hpos.
  assert (Hlen : length (face_indices true (Z.of_nat N) (Z.of_nat P))
                 = (P * (N - 1) - 1)%nat).
  { rewrite face_indices_closed, length_range. nia. }
  do 2 eexists. split; [|split; [|split]].
  - apply (mesh_from_polygons_ok _ _ _ _ Hs). lia.
  - apply cells_quads.
  - now rewrite length_map.
  - intros f Hf. apply in_map_iff in Hf. destruct Hf as [k [<- Hk]].
    apply face_indices_bound in Hk.
    split; [reflexivity|].
    intros v Hv. cbn [quad_corners In] in Hv.
    destruct Hv as [<-|[<-|[<-|[<-|[]]]]]; nia.
Qed.

Lemma closed_face_count_witness :
  exists m fs,
    mesh_from_polygons (zeros [3; 2; 3]%nat) true = Py.Ok m
    /\ Pv.cells m = Some fs
    /\ length fs = (2 * (3 - 1) - 1)%nat
    /\ forall f, In f fs ->
         length f = 4%nat
         /\ forall v, In v f -> (0 <= v < Z.of_nat (3 * 2))%Z.
Proof.
  apply (closed_face_count (zeros [3; 2; 3]%nat) 3 2);
    [reflexivity | lia | lia | simpl; lia].
Defined.

(** C3, as stated, fails at [P = 1]: no running index passes the filter and
    stacking the empty face list raises; no mesh of zero faces is
    returned. *)
Lemma open_face_count_counterexample :
  mesh_from_polygons (zeros [2; 1; 3]%nat) false = Py.Raise Py.ValueError.
Proof.
  rewrite (mesh_from_polygons_shape (zeros [2; 1; 3]%nat) 2 1 false eq_refl).
  assert (Hk : face_indices false (Z.of_nat 2) (Z.of_nat 1) = [])
    by reflexivity.
  now rewrite Hk.
Qed.

(** C3, amended: on a (N, P, 3) array with at least two slices of at least
    two points, the open mesher returns a mesh of exactly
    [(P - 1) * (N - 1)] cells: for every pair of consecutive slices [i],
    [i + 1], in order, the faces at vertices [j = 0 .. P - 2], and not the
    one at the last vertex [j = P - 1]. *)
Theorem open_face_count (pts : Np.ndarray) (N P : nat) :
  Np.shape pts = [N; P; 3%nat] ->
  (2 <= N)%nat -> (2 <= P)%nat ->
  exists m fs,
    mesh_from_polygons pts false = Py.Ok m
    /\ Pv.cells m = Some fs
    /\ length fs = ((P - 1) * (N - 1))%nat
    /\ fs = flat_map
              (fun i => map (strip_face (Z.of_nat P) i)
                            (Py.range (Z.of_nat P - 1)))
              (Py.range (Z.of_nat N - 1)).
Proof.
  intros Hs HN HP.
  assert (Hlen : length (face_indices false (Z.of_nat N) (Z.of_nat P))
                 = ((P - 1) * (N - 1))%nat).
  { rewrite length_face_indices_open by lia. lia. }
  do 2 eexists. split; [|split; [|split]].
  - apply (mesh_from_polygons_ok _ _ _ _ Hs). nia.
  - apply cells_quads.
  - now rewrite length_map.
  - rewrite face_indices_open by lia.
    rewrite flat_map_concat_map, concat_map, map_map.
    rewrite <- flat_map_concat_map.
    apply flat_map_ext. intro i. rewrite map_map.
    apply map_ext. intro j.
    apply quad_corners_strip.
Qed.

Lemma open_face_count_witness :
  exists m fs,
    mesh_from_polygons (zeros [3; 4; 3]%nat) false = Py.Ok m
    /\ Pv.cells m = Some fs
    /\ length fs = ((4 - 1) * (3 - 1))%nat
    /\ fs = flat_map
              (fun i => map (strip_face (Z.of_nat 4) i)
                            (Py.range (Z.of_nat 4 - 1)))
              (Py.range (Z.of_nat 3 - 1)).
Proof.
  apply (open_face_count (zeros [3; 4; 3]%nat) 3 4); [reflexivity | lia | lia].
Defined.

(** ** Fewer than two slices *)

(** C5, as stated, fails: on one slice of four points the mesher raises. *)
Lemma few_slices_counterexample :
  mesh_from_polygons (zeros [1; 4; 3]%nat) true = Py.Raise Py.ValueError
  /\ mesh_from_polygons (zeros [1; 4; 3]%nat) false = Py.Raise Py.ValueError
  /\ ~ (exists m, mesh_from_polygons (zeros [1; 4; 3]%nat) true = Py.Ok m
                  /\ n_faces m = Some 0%nat).
Proof.
  assert (H : forall c, mesh_from_polygons (zeros [1; 4; 3]%nat) c
                        = Py.Raise Py.ValueError).
  { intro c.
    rewrite (mesh_from_polygons_shape (zeros [1; 4; 3]%nat) 1 4 c eq_refl).
    now rewrite face_indices_few_slices by lia. }
  split; [apply H | split; [apply H |]].
  intros [m [Hm _]]. rewrite H in Hm. discriminate Hm.
Qed.

(** C5, amended: on an array of fewer than two slices the mesher builds no
    face and returns no mesh: stacking the empty face list raises
    [ValueError] (and points that are not 3-D fail the assertion first). *)
Theorem few_slices_raise (pts : Np.ndarray) (N P dim : nat) (close : bool) :
  Np.shape pts = [N; P; dim] ->
  (N < 2)%nat ->
  face_indices close (Z.of_nat N) (Z.of_nat P) = []
  /\ mesh_from_polygons pts close
     = Py.Raise (if Nat.eqb dim 3 then Py.ValueError else Py.AssertionError).
Proof.
  intros Hs HN.
  pose proof (face_indices_few_slices close N P HN) as Hk.
  split; [exact Hk|].
  unfold mesh_from_polygons. rewrite Hs.
  destruct (Nat.eqb dim 3); [|reflexivity].
  now rewrite Hk.
Qed.

(** The array built from an empty list of cross-sections is 1-D, of shape
    (0,): unpacking its shape into three names already raises. *)
Lemma mesh_of_no_polygon (close : bool) :
  (pts <- Np.array [] ;; mesh_from_polygons pts close)
  = Py.Raise Py.ValueError.
Proof. reflexivity. Qed.

Lemma few_slices_raise_witness :
  face_indices false (Z.of_nat 1) (Z.of_nat 20) = []
  /\ mesh_from_polygons (zeros [1; 20; 3]%nat) false
     = Py.Raise (if Nat.eqb 3 3 then Py.ValueError else Py.AssertionError).
Proof.
  apply (few_slices_raise (zeros [1; 20; 3]%nat) 1 20 3 false);
    [reflexivity | lia].
Defined.

(** ** Vertex buffer and face corners *)

Lemma reshape3_flat (rows : list point) : Np.reshape3 (Np.flat rows) = rows.
Proof.
  induction rows as [|[[a b] c] rows IH]; [reflexivity|].
  unfold Np.flat in *. cbn [flat_map app Np.reshape3]. now rewrite IH.
Qed.

Lemma array_uniform (polys : list (list point)) (P : nat) :
  polys <> [] ->
  (forall p, In p polys -> length p = P) ->
  Np.array polys
  = Py.Ok (Np.mk_ndarray [length polys; P; 3%nat] (Np.flat (concat polys))).
Proof.
  intros Hne Hall. destruct polys as [|p0 rest]; [contradiction|].
  unfold Np.array.
  assert (H0 : length p0 = P) by (apply Hall; now left).
  replace (forallb (fun p => Nat.eqb (length p) (length p0)) (p0 :: rest))
    with true.
  - now rewrite H0.
  - symmetry. apply forallb_forall. intros p Hp.
    apply Nat.eqb_eq. rewrite H0. now apply Hall.
Qed.

Lemma nth_error_concat_uniform (polys : list (list point)) (P i j : nat)
  (poly : list point) :
  (forall p, In p polys -> length p = P) ->
  nth_error polys i = Some poly ->
  (j < P)%nat ->
  nth_error (concat polys) (P * i + j) = nth_error poly j.
Proof.
  revert i. induction polys as [|p0 rest IH]; intros i Hall Hi Hj.
  - destruct i; discriminate Hi.
  - assert (H0 : length p0 = P) by (apply Hall; now left).
    destruct i as [|i]; cbn [nth_error concat] in *.
    + injection Hi as ->. rewrite Nat.mul_0_r. cbn [Nat.add].
      apply nth_error_app1. lia.
    + rewrite nth_error_app2 by lia.
      replace (P * S i + j - length p0)%nat with (P * i + j)%nat by lia.
      apply IH; [|assumption|assumption].
      intros p Hp. apply Hall. now right.
Qed.

Lemma face_indices_split (close : bool) (N P k : Z) :
  (1 <= P)%Z ->
  In k (face_indices close N P) ->
  exists i j,
    (0 <= i < N - 1)%Z /\ (0 <= j < P)%Z /\ k = (P * i + j)%Z
    /\ (j = P - 1 -> close = true /\ i + 2 < N)%Z.
Proof.
  intros HP Hk. pose proof (face_indices_bound _ _ _ _ Hk) as Hb.
  unfold face_indices in Hk. apply filter_In in Hk. destruct Hk as [_ Hkeep].
  pose proof (Z.div_mod k P ltac:(lia)) as Hdm.
  pose proof (Z.mod_pos_bound k P ltac:(lia)) as Hm.
  exists (k / P)%Z, (k mod P)%Z.
  split; [nia|]. split; [lia|]. split; [lia|].
  intro Hj. split; [|nia].
  unfold keep_face in Hkeep. rewrite Hj, Z.eqb_refl in Hkeep.
  now destruct close.
Qed.

Lemma face_indices_inside (close : bool) (N P i j : Z) :
  (1 <= P)%Z -> (0 <= i < N - 1)%Z -> (0 <= j < P - 1)%Z ->
  In (P * i + j)%Z (face_indices close N P).
Proof.
  intros HP Hi Hj. unfold face_indices. apply filter_In. split.
  - apply in_range. nia.
  - unfold keep_face. apply orb_true_iff. right.
    pose proof (keep_open_inside P HP i j Hj) as H.
    unfold keep_face in H. exact H.
Qed.

(** C2, as stated, fails: on three slices of two points the closed mesher
    returns the faces (0,1,3,2), (1,2,4,3), (2,3,5,4); the second starts
    at the last vertex of slice 0 and goes on to the first vertex of
    slice 1, where the statement has (1,0,2,3), and the face list is not
    the one with wrap-around. *)
Lemma face_wrap_counterexample :
  exists m,
    mesh_from_polygons (zeros [3; 2; 3]%nat) true = Py.Ok m
    /\ Pv.cells m = Some [[0; 1; 3; 2]; [1; 2; 4; 3]; [2; 3; 5; 4]]%Z
    /\ spec_wrap_face 2 0 1 = [1; 0; 2; 3]%Z
    /\ ~ In (spec_wrap_face 2 0 1) [[0; 1; 3; 2]; [1; 2; 4; 3]; [2; 3; 5; 4]]%Z
    /\ Pv.cells m <> Some (spec_wrap_faces 3 2).
Proof.
  eexists. split.
  - rewrite (mesh_from_polygons_shape (zeros [3; 2; 3]%nat) 3 2 true eq_refl).
    assert (Hk : face_indices true (Z.of_nat 3) (Z.of_nat 2) = [0; 1; 2]%Z)
      by reflexivity.
    rewrite Hk. reflexivity.
  - rewrite cells_quads.
    split; [reflexivity|]. split; [reflexivity|]. split.
    + cbv. intros [H|[H|[H|[]]]]; discriminate H.
    + cbv. intro H. discriminate H.
Qed.

(** C2, amended: on [N >= 2] slices of [P >= 2] points each, the vertex
    buffer is the input flattened in order, so that point [j] of slice [i]
    sits at index [P * i + j]; every face written at a vertex [j] with
    [j + 1 < P] connects (i,j), (i,j+1), (i+1,j+1), (i+1,j), and all those
    faces are written; the index following the last vertex of a slice is
    not wrapped: a face at [j = P - 1] is written only by the closed mesher
    and only when slice [i + 2] exists, and it connects (i,P-1), (i+1,0),
    (i+2,0), (i+1,P-1). *)
Theorem face_corners (polys : list (list point)) (N P : nat) (close : bool) :
  length polys = N ->
  (forall p, In p polys -> length p = P) ->
  (2 <= N)%nat -> (2 <= P)%nat ->
  exists pts m fs,
    Np.array polys = Py.Ok pts
    /\ mesh_from_polygons pts close = Py.Ok m
    /\ Pv.points m = concat polys
    /\ (forall i j poly, nth_error polys i = Some poly -> (j < P)%nat ->
          nth_error (Pv.points m) (P * i + j) = nth_error poly j)
    /\ Pv.cells m = Some fs
    /\ (forall f, In f fs ->
          exists i j,
            (0 <= i < Z.of_nat N - 1)%Z /\ (0 <= j < Z.of_nat P)%Z
            /\ ((j + 1 < Z.of_nat P)%Z /\ f = strip_face (Z.of_nat P) i j
                \/ (j = Z.of_nat P - 1 /\ close = true
                    /\ i + 2 < Z.of_nat N)%Z
                   /\ f = seam_face (Z.of_nat P) i))
    /\ (forall i j,
          (0 <= i < Z.of_nat N - 1)%Z -> (0 <= j < Z.of_nat P - 1)%Z ->
          In (strip_face (Z.of_nat P) i j) fs).
Proof.
  intros HlenN Hall HN HP.
  assert (Hne : polys <> []) by (destruct polys; [simpl in HlenN; lia | easy]).
  exists (Np.mk_ndarray [N; P; 3%nat] (Np.flat (concat polys))).
  assert (Hin : In (Z.of_nat P * 0 + 0)%Z
                   (face_indices close (Z.of_nat N) (Z.of_nat P)))
    by (apply face_indices_inside; lia).
  do 2 eexists. split; [|split; [|split; [|split; [|split; [|split]]]]].
  - rewrite <- HlenN. now apply array_uniform.
  - apply mesh_from_polygons_ok; [reflexivity|].
    destruct (face_indices close (Z.of_nat N) (Z.of_nat P));
      [destruct Hin | simpl; lia].
  - cbn [Pv.points Np.data]. apply reshape3_flat.
  - intros i j poly Hi Hj. cbn [Pv.points Np.data]. rewrite reshape3_flat.
    now apply nth_error_concat_uniform.
  - apply cells_quads.
  - intros f Hf. apply in_map_iff in Hf. destruct Hf as [k [<- Hk]].
    apply face_indices_split in Hk; [|lia].
    destruct Hk as [i [j [Hi [Hj [-> Hseam]]]]].
    exists i, j. split; [exact Hi|]. split; [exact Hj|].
    destruct (Z.eq_dec j (Z.of_nat P - 1)) as [Heq|Hneq].
    + right. destruct (Hseam Heq) as [Hc Hi2].
      split; [now repeat split|].
      rewrite Heq. apply quad_corners_seam.
    + left. split; [lia|]. apply quad_corners_strip.
  - intros i j Hi Hj. rewrite <- quad_corners_strip.
    apply in_map. apply face_indices_inside; [lia|assumption|assumption].
Qed.

Lemma face_corners_witness :
  let polys :=
    [ [(0, 0, 0); (1, 0, 0)]; [(0, 0, 1); (1, 0, 1)] ]%R in
  exists pts m fs,
    Np.array polys = Py.Ok pts
    /\ mesh_from_polygons pts true = Py.Ok m
    /\ Pv.points m = concat polys
    /\ (forall i j poly, nth_error polys i = Some poly -> (j < 2)%nat ->
          nth_error (Pv.points m) (2 * i + j) = nth_error poly j)
    /\ Pv.cells m = Some fs
    /\ (forall f, In f fs ->
          exists i j,
            (0 <= i < Z.of_nat 2 - 1)%Z /\ (0 <= j < Z.of_nat 2)%Z
            /\ ((j + 1 < Z.of_nat 2)%Z /\ f = strip_face (Z.of_nat 2) i j
                \/ (j = Z.of_nat 2 - 1 /\ true = true
                    /\ i + 2 < Z.of_nat 2)%Z
                   /\ f = seam_face (Z.of_nat 2) i))
    /\ (forall i j,
          (0 <= i < Z.of_nat 2 - 1)%Z -> (0 <= j < Z.of_nat 2 - 1)%Z ->
          In (strip_face (Z.of_nat 2) i j) fs).
Proof.
  intro polys. apply (face_corners polys 2 2 true).
  - reflexivity.
  - intros p [<-|[<-|[]]]; reflexivity.
  - lia.
  - lia.
Defined.

(** ** Rotation about the z axis and placement *)

Lemma apply1_from_euler_z (theta lx ly lz : R) :
  Rotation.apply1 (Rotation.from_euler_z theta) (lx, ly, lz)
  = ((cos theta * lx - sin theta * ly)%R,
     (sin theta * lx + cos theta * ly)%R,
     lz).
Proof.
  unfold Rotation.apply1, Rotation.as_matrix, Rotation.from_euler_z,
    Rotation.dot.
  cbn [Rotation.qx Rotation.qy Rotation.qz Rotation.qw].
  assert (Hc : cos theta = (cos (theta / 2) * cos (theta / 2)
                            - sin (theta / 2) * sin (theta / 2))%R).
  { rewrite <- cos_2a. f_equal. field. }
  assert (Hs : sin theta = (2 * sin (theta / 2) * cos (theta / 2))%R).
  { rewrite <- sin_2a. f_equal. field. }
  rewrite Hc, Hs.
  pose proof (sin2_cos2 (theta / 2)) as Hu. unfold Rsqr in Hu.
  f_equal; [f_equal|]; [ring | ring |].
  replace lz with (1 * lz)%R at 2 by ring. rewrite <- Hu. ring.
Qed.

Lemma add_rows_tile (pts : list point) (c : point) :
  Np.add_rows pts (Np.tile c (length pts)) = map (fun p => Np.padd p c) pts.
Proof.
  unfold Np.tile. induction pts as [|p pts IH]; [reflexivity|].
  cbn [length repeat Np.add_rows map]. now rewrite IH.
Qed.

Lemma placed (theta x y z : R) (locals : list point) :
  let rotated := Rotation.apply (Rotation.from_euler_z theta) locals in
  Np.add_rows rotated (Np.tile (x, y, z) (length rotated))
  = map (place theta x y z) locals.
Proof.
  cbv zeta. rewrite add_rows_tile. unfold Rotation.apply. rewrite map_map.
  apply map_ext. intros [[lx ly] lz].
  rewrite apply1_from_euler_z. unfold Np.padd, place.
  f_equal; [f_equal|]; ring.
Qed.

Lemma third_place (theta x y z : R) (local : point) :
  third (place theta x y z local) = (z + third local)%R.
Proof. destruct local as [[lx ly] lz]. reflexivity. Qed.

(** ** [np.linspace] *)

Lemma linspace_length (start stop : R) (n : nat) :
  length (Np.linspace start stop n) = n.
Proof.
  destruct n as [|[|n]]; [reflexivity | reflexivity |].
  unfold Np.linspace. rewrite length_app, length_map, length_seq.
  simpl. lia.
Qed.

Lemma linspace_uniform (start stop : R) (n : nat) :
  Np.linspace start stop (S (S n))
  = map (fun k => (INR k * ((stop - start) / INR (S n)) + start)%R)
        (seq 0 (S (S n))).
Proof.
  change (Np.linspace start stop (S (S n)))
    with (map (fun k => (INR k * ((stop - start) / INR (S (S n) - 1))
                         + start)%R)
              (seq 0 (S n)) ++ [stop]).
  replace (S (S n) - 1)%nat with (S n) by lia.
  rewrite (seq_S (S n) 0), map_app. f_equal.
  cbn [map Nat.add]. f_equal.
  assert (H : INR (S n) <> 0%R) by (apply not_0_INR; lia).
  field. exact H.
Qed.

Lemma ellipse_ts :
  Np.linspace 0 (2 * PI) 20 = map ellipse_t (seq 0 20).
Proof.
  rewrite linspace_uniform. apply map_ext. intro k. unfold ellipse_t.
  replace (INR 19) with 19%R by (simpl; ring). field.
Qed.

Lemma ellipse_t_last : ellipse_t 19 = (2 * PI)%R.
Proof. unfold ellipse_t. replace (INR 19) with 19%R by (simpl; ring). field. Qed.

Lemma ellipse_t_first : ellipse_t 0 = 0%R.
Proof. unfold ellipse_t. simpl. ring. Qed.

(** ** The generators in terms of local points and placement *)

Lemma ellipse_placed (rxy rz beam_xy beam_z x y z theta : R) :
  ellipse rxy rz beam_xy beam_z x y z theta
  = map (fun k => place theta x y z
                    (ellipse_local rxy rz beam_xy beam_z (ellipse_t k)))
        (seq 0 20).
Proof.
  unfold ellipse.
  set (ts := Np.linspace 0 (2 * PI) 20).
  set (locals := map _ ts).
  replace (length ts) with (length (Rotation.apply
                                      (Rotation.from_euler_z theta) locals)).
  - rewrite (placed theta x y z locals).
    unfold locals, ts. rewrite ellipse_ts, !map_map. reflexivity.
  - unfold Rotation.apply, locals. now rewrite !length_map.
Qed.

Lemma make_screen_placed (xs ys : list R) (x y z theta : R) :
  length xs = length ys ->
  make_screen xs ys x y z theta
  = Py.Ok (map (place theta x y z) (Np.zip_xz xs ys)).
Proof.
  intro Hlen. unfold make_screen, Np.column_stack_x0y.
  rewrite Hlen, Nat.eqb_refl. cbn [Py.bind].
  f_equal. apply placed.
Qed.

Lemma make_rectangular_screen_placed
  (x_min x_max y_min y_max x y z theta : R) (close : bool) :
  make_rectangular_screen x_min x_max y_min y_max x y z theta close
  = map (place theta x y z)
        (rectangle_local x_min (if close then x_max else 0%R) y_min y_max).
Proof.
  unfold make_rectangular_screen.
  destruct close; cbn [negb]; apply placed.
Qed.

Lemma third_zip_xz (xs ys : list R) :
  length xs = length ys -> map third (Np.zip_xz xs ys) = ys.
Proof.
  revert ys; induction xs as [|u xs IH]; intros [|v ys] Hlen;
    try discriminate Hlen; [reflexivity|].
  cbn [Np.zip_xz map]. f_equal. apply IH. now injection Hlen.
Qed.

Lemma INR_19 : INR 19 = 19%R.
Proof. rewrite INR_IZR_INZ. reflexivity. Qed.

Lemma INR_20 : INR 20 = 20%R.
Proof. rewrite INR_IZR_INZ. reflexivity. Qed.

(** ** Ellipse *)

(** C4, as stated, fails: the last of the 20 parameter values is 2 pi
    itself, which is outside the half-open interval; the sampling is not
    the one of step 2 pi / 20; and the last point of the ellipse of radii 1
    at the origin repeats the first, (1, 0, 0). *)
Lemma ellipse_sampling_counterexample :
  nth_error (Np.linspace 0 (2 * PI) 20) 19 = Some (2 * PI)%R
  /\ ~ (forall t, In t (Np.linspace 0 (2 * PI) 20) -> (0 <= t < 2 * PI)%R)
  /\ Np.linspace 0 (2 * PI) 20 <> spec_half_open_ts 20
  /\ nth_error (ellipse 1 1 0 0 0 0 0 0) 0 = Some (1, 0, 0)%R
  /\ nth_error (ellipse 1 1 0 0 0 0 0 0) 19 = Some (1, 0, 0)%R.
Proof.
  assert (Hlast : nth_error (Np.linspace 0 (2 * PI) 20) 19 = Some (2 * PI)%R).
  { rewrite ellipse_ts, nth_error_map.
    change (nth_error (seq 0 20) 19) with (Some 19%nat).
    cbn [option_map]. now rewrite ellipse_t_last. }
  split; [exact Hlast|]. split; [|split; [|split]].
  - intro H. apply nth_error_In in Hlast. apply H in Hlast. lra.
  - intro H. rewrite H in Hlast. unfold spec_half_open_ts in Hlast.
    rewrite nth_error_map in Hlast.
    change (nth_error (seq 0 20) 19) with (Some 19%nat) in Hlast.
    cbn [option_map] in Hlast.
    assert (Heq : (INR 19 * (2 * PI / INR 20))%R = (2 * PI)%R)
      by congruence.
    rewrite INR_19, INR_20 in Heq.
    pose proof PI_RGT_0. lra.
  - rewrite ellipse_placed, nth_error_map.
    change (nth_error (seq 0 20) 0) with (Some 0%nat).
    cbn [option_map]. rewrite ellipse_t_first.
    unfold ellipse_local, place. rewrite cos_0, sin_0.
    f_equal. f_equal; [f_equal|]; ring.
  - rewrite ellipse_placed, nth_error_map.
    change (nth_error (seq 0 20) 19) with (Some 19%nat).
    cbn [option_map]. rewrite ellipse_t_last.
    unfold ellipse_local, place. rewrite cos_2PI, sin_2PI, cos_0, sin_0.
    f_equal. f_equal; [f_equal|]; ring.
Qed.

(** C4, amended: for every radii, offsets, centre and angle, the ellipse
    generator returns 20 points, the [k]-th being the placement of
    (rxy cos t + beam_x, 0, rz sin t + beam_y) at [t = k * 2 pi / 19]: the
    parameter is equidistant over the closed interval from 0 to 2 pi, both
    ends included, and the last point repeats the first. *)
Theorem ellipse_sampling (rxy rz beam_x beam_y x y z theta : R) :
  ellipse rxy rz beam_x beam_y x y z theta
  = map (fun k =>
           place theta x y z
             ((rxy * cos (ellipse_t k) + beam_x)%R, 0%R,
              (rz * sin (ellipse_t k) + beam_y)%R))
        (seq 0 20)
  /\ length (ellipse rxy rz beam_x beam_y x y z theta) = 20%nat
  /\ ellipse_t 0 = 0%R
  /\ ellipse_t 19 = (2 * PI)%R
  /\ (forall k, (ellipse_t (S k) - ellipse_t k = 2 * PI / 19)%R)
  /\ nth_error (ellipse rxy rz beam_x beam_y x y z theta) 19
     = nth_error (ellipse rxy rz beam_x beam_y x y z theta) 0.
Proof.
  split; [apply ellipse_placed|].
  split; [now rewrite ellipse_placed, length_map, length_seq|].
  split; [apply ellipse_t_first|].
  split; [apply ellipse_t_last|].
  split.
  - intro k. unfold ellipse_t. rewrite S_INR. field.
  - rewrite ellipse_placed, !nth_error_map.
    change (nth_error (seq 0 20) 19) with (Some 19%nat).
    change (nth_error (seq 0 20) 0) with (Some 0%nat).
    cbn [option_map]. rewrite ellipse_t_first, ellipse_t_last.
    unfold ellipse_local. now rewrite cos_2PI, sin_2PI, cos_0, sin_0.
Qed.

(** ** Rectangular screen *)

(** C9: the rectangular screen has exactly four corners, the placements of
    (xmax, ymin), (xmin, ymin), (xmin, ymax), (xmax, ymax) in this order;
    the open variant uses 0 for xmax in both corners that mention it,
    whatever [x_max] was passed. *)
Theorem rectangular_screen_corners
  (x_min x_max y_min y_max x y z theta : R) (close : bool) :
  let xmax := if close then x_max else 0%R in
  make_rectangular_screen x_min x_max y_min y_max x y z theta close
  = [ place theta x y z (xmax, 0%R, y_min);
      place theta x y z (x_min, 0%R, y_min);
      place theta x y z (x_min, 0%R, y_max);
      place theta x y z (xmax, 0%R, y_max) ]
  /\ length (make_rectangular_screen x_min x_max y_min y_max x y z theta
                                     close) = 4%nat
  /\ (forall x_max',
        make_rectangular_screen x_min x_max y_min y_max x y z theta false
        = make_rectangular_screen x_min x_max' y_min y_max x y z theta false)
  /\ make_rectangular_screen x_min x_max y_min y_max x y z theta false
     = [ place theta x y z (0%R, 0%R, y_min);
         place theta x y z (x_min, 0%R, y_min);
         place theta x y z (x_min, 0%R, y_max);
         place theta x y z (0%R, 0%R, y_max) ].
Proof.
  cbv zeta. rewrite !make_rectangular_screen_placed.
  repeat split. intro x_max'.
  now rewrite !make_rectangular_screen_placed.
Qed.

(** ** Third coordinate *)

(** C10: the rotation about the z axis leaves the third component of every
    point unchanged, so that for each of the three generators the third
    world coordinate of every output point is the [z] argument plus the
    vertical coordinate of the local point: [rz sin t + beam_z] for the
    ellipse, [ys[k]] for the polygon screen, [y_min], [y_min], [y_max],
    [y_max] for the rectangle; none depends on [theta]. *)
Theorem third_coordinate
  (rxy rz beam_xy beam_z : R) (xs ys : list R)
  (x_min x_max y_min y_max : R) (close : bool) (x y z theta : R) :
  length xs = length ys ->
  (forall p, third (Rotation.apply1 (Rotation.from_euler_z theta) p)
             = third p)
  /\ map third (ellipse rxy rz beam_xy beam_z x y z theta)
     = map (fun k => (z + (rz * sin (ellipse_t k) + beam_z))%R) (seq 0 20)
  /\ (exists pts,
        make_screen xs ys x y z theta = Py.Ok pts
        /\ map third pts = map (fun v => (z + v)%R) ys)
  /\ map third (make_rectangular_screen x_min x_max y_min y_max x y z theta
                                        close)
     = [ (z + y_min)%R; (z + y_min)%R; (z + y_max)%R; (z + y_max)%R ].
Proof.
  intro Hlen. split; [|split; [|split]].
  - intros [[lx ly] lz]. now rewrite apply1_from_euler_z.
  - rewrite ellipse_placed, map_map. apply map_ext. intro k.
    now rewrite third_place.
  - eexists. split; [now apply make_screen_placed|].
    rewrite map_map.
    rewrite (map_ext _ (fun p => (z + third p)%R))
      by (intro p; apply third_place).
    rewrite <- (map_map third (fun v => (z + v)%R)).
    now rewrite third_zip_xz.
  - rewrite make_rectangular_screen_placed.
    unfold rectangle_local. cbn [map]. now rewrite !third_place.
Qed.

Lemma third_coordinate_witness :
  (forall p, third (Rotation.apply1 (Rotation.from_euler_z (PI / 2)) p)
             = third p)
  /\ map third (ellipse 2 1 0 0 0 0 5 (PI / 2))
     = map (fun k => (5 + (1 * sin (ellipse_t k) + 0))%R) (seq 0 20)
  /\ (exists pts,
        make_screen [1; 0; -1]%R [0; 1; 0]%R 0 0 5 (PI / 2) = Py.Ok pts
        /\ map third pts = map (fun v => (5 + v)%R) [0; 1; 0]%R)
  /\ map third (make_rectangular_screen (-1) 1 (-2) 2 0 0 5 (PI / 2) true)
     = [ (5 + -2)%R; (5 + -2)%R; (5 + 2)%R; (5 + 2)%R ].
Proof.
  apply (third_coordinate 2 1 0 0 [1; 0; -1]%R [0; 1; 0]%R
                          (-1) 1 (-2) 2 true 0 0 5 (PI / 2)).
  reflexivity.
Defined.

(** ** Envelope sizer *)

Lemma map2_map {A : Type} (f : R -> R -> R) (g h : A -> R) (l : list A) :
  Vec.map2 f (map g l) (map h l) = map (fun a => f (g a) (h a)) l.
Proof.
  induction l as [|a l IH]; [reflexivity|].
  cbn [map Vec.map2]. now rewrite IH.
Qed.

Lemma sigx_rows (sv : Survey.table) (tw : Twiss.table) :
  bs_sigx (compute_beam_size sv tw)
  = map (sigma_x (Twiss.gamma0 tw)) (Twiss.rows tw).
Proof.
  unfold compute_beam_size. cbn [bs_sigx].
  unfold Vec.add, Vec.scale_l, Vec.scale_r.
  rewrite !map_map. apply map2_map.
Qed.

Lemma sigy_rows (sv : Survey.table) (tw : Twiss.table) :
  bs_sigy (compute_beam_size sv tw)
  = map (sigma_y (Twiss.gamma0 tw)) (Twiss.rows tw).
Proof.
  unfold compute_beam_size. cbn [bs_sigy].
  unfold Vec.add, Vec.scale_l, Vec.scale_r.
  rewrite !map_map. apply map2_map.
Qed.

Lemma envelope_term_nonneg (nemitt gamma0 beta d : R) :
  (0 <= n_sigmas * sqrt (nemitt / gamma0 * beta) + Rabs d * sigma_delta)%R.
Proof.
  apply Rplus_le_le_0_compat; apply Rmult_le_pos.
  - unfold n_sigmas. lra.
  - apply sqrt_pos.
  - apply Rabs_pos.
  - unfold sigma_delta. lra.
Qed.

Lemma emittance_term_nonneg (gamma0 beta : R) :
  (0 < gamma0)%R -> (0 <= beta)%R ->
  (0 <= nemitt_x / gamma0 * beta)%R /\ (0 <= nemitt_y / gamma0 * beta)%R.
Proof.
  intros Hg Hb.
  assert (H : (0 <= 25 / 10000000 / gamma0)%R).
  { apply Rlt_le, Rdiv_lt_0_compat; lra. }
  unfold nemitt_x, nemitt_y. split; now apply Rmult_le_pos.
Qed.

(** C6: per slice, [sigx] and [sigy] are the stated formula; for a positive
    [gamma0] and non-negative beta functions the argument of each square
    root is non-negative and every [sigx], [sigy] is non-negative. *)
Theorem envelope_sizer (sv : Survey.table) (tw : Twiss.table) :
  (0 < Twiss.gamma0 tw)%R ->
  (forall r, In r (Twiss.rows tw) ->
             (0 <= Twiss.betx r)%R /\ (0 <= Twiss.bety r)%R) ->
  let b := compute_beam_size sv tw in
  let gamma0 := Twiss.gamma0 tw in
  bs_sigx b
  = map (fun r => (n_sigmas * sqrt (nemitt_x / gamma0 * Twiss.betx r)
                   + Rabs (Twiss.dx r) * sigma_delta)%R) (Twiss.rows tw)
  /\ bs_sigy b
     = map (fun r => (n_sigmas * sqrt (nemitt_y / gamma0 * Twiss.bety r)
                      + Rabs (Twiss.dy r) * sigma_delta)%R) (Twiss.rows tw)
  /\ (forall r, In r (Twiss.rows tw) ->
        (0 <= nemitt_x / gamma0 * Twiss.betx r)%R
        /\ (0 <= nemitt_y / gamma0 * Twiss.bety r)%R)
  /\ (forall v, In v (bs_sigx b) -> (0 <= v)%R)
  /\ (forall v, In v (bs_sigy b) -> (0 <= v)%R).
Proof.
  intros Hg Hbeta b gamma0. subst b gamma0.
  split; [apply sigx_rows|]. split; [apply sigy_rows|].
  split; [|split].
  - intros r Hr. destruct (Hbeta r Hr) as [Hx Hy]. split.
    + now apply (emittance_term_nonneg (Twiss.gamma0 tw) (Twiss.betx r)).
    + now apply (emittance_term_nonneg (Twiss.gamma0 tw) (Twiss.bety r)).
  - intros v Hv. rewrite sigx_rows in Hv.
    apply in_map_iff in Hv. destruct Hv as [r [<- _]].
    apply envelope_term_nonneg.
  - intros v Hv. rewrite sigy_rows in Hv.
    apply in_map_iff in Hv. destruct Hv as [r [<- _]].
    apply envelope_term_nonneg.
Qed.

Lemma envelope_sizer_witness :
  let tw := Twiss.mk [ Twiss.mk_row 0 0 0 4 9 (-1) 2;
                       Twiss.mk_row 1 0 0 0 1 0 0 ]%R 7000 in
  let sv := [ Survey.mk_row 0 0 0 0; Survey.mk_row 0 0 1 0 ]%R in
  let b := compute_beam_size sv tw in
  let gamma0 := Twiss.gamma0 tw in
  bs_sigx b
  = map (fun r => (n_sigmas * sqrt (nemitt_x / gamma0 * Twiss.betx r)
                   + Rabs (Twiss.dx r) * sigma_delta)%R) (Twiss.rows tw)
  /\ bs_sigy b
     = map (fun r => (n_sigmas * sqrt (nemitt_y / gamma0 * Twiss.bety r)
                      + Rabs (Twiss.dy r) * sigma_delta)%R) (Twiss.rows tw)
  /\ (forall r, In r (Twiss.rows tw) ->
        (0 <= nemitt_x / gamma0 * Twiss.betx r)%R
        /\ (0 <= nemitt_y / gamma0 * Twiss.bety r)%R)
  /\ (forall v, In v (bs_sigx b) -> (0 <= v)%R)
  /\ (forall v, In v (bs_sigy b) -> (0 <= v)%R).
Proof.
  intros tw sv. apply (envelope_sizer sv tw).
  - simpl. lra.
  - intros r [<-|[<-|[]]]; simpl; lra.
Defined.

(** ** Comprehensions over index lists *)

Lemma comprehension_where {A B : Type} (l : list A) (q : A -> bool)
  (g : A -> B) :
  forall (o : nat) (body : nat -> Py.result B),
    (forall i a, nth_error l i = Some a -> q a = true ->
                 body (o + i)%nat = Py.Ok (g a)) ->
    Py.comprehension body (Np.where_from o (map q l))
    = Py.Ok (map g (filter q l)).
Proof.
  induction l as [|a l IH]; intros o body Hbody; [reflexivity|].
  assert (Htail : forall i a', nth_error l i = Some a' -> q a' = true ->
                               body (S o + i)%nat = Py.Ok (g a')).
  { intros i a' Hi Hq. specialize (Hbody (S i) a' Hi Hq).
    now rewrite Nat.add_succ_r in Hbody. }
  cbn [map Np.where_from filter]. destruct (q a) eqn:Hq.
  - cbn [Py.comprehension map].
    specialize (Hbody 0%nat a eq_refl Hq). rewrite Nat.add_0_r in Hbody.
    rewrite Hbody. cbn [Py.bind].
    now rewrite (IH (S o) body Htail).
  - apply (IH (S o) body Htail).
Qed.

Lemma seq_where {A : Type} (l : list A) (o : nat) :
  seq o (length l) = Np.where_from o (map (fun _ => true) l).
Proof.
  revert o; induction l as [|a l IH]; intro o; [reflexivity|].
  cbn [length seq map Np.where_from]. now rewrite IH.
Qed.

Lemma comprehension_seq {A B : Type} (l : list A) (g : A -> B)
  (body : nat -> Py.result B) :
  (forall i a, nth_error l i = Some a -> body i = Py.Ok (g a)) ->
  Py.comprehension body (seq 0 (length l)) = Py.Ok (map g l).
Proof.
  intro Hbody. rewrite seq_where.
  rewrite (comprehension_where l (fun _ => true) g 0 body).
  - now rewrite filter_all.
  - intros i a Hi _. now apply Hbody.
Qed.

Lemma nth_error_combine {A B : Type} (la : list A) (lb : list B) (i : nat)
  (a : A) (b : B) :
  nth_error (combine la lb) i = Some (a, b) ->
  nth_error la i = Some a /\ nth_error lb i = Some b.
Proof.
  revert lb i; induction la as [|a0 la IH]; intros [|b0 lb] [|i] H;
    try discriminate H.
  - cbn in H. injection H as -> ->. now split.
  - cbn in H. cbn [nth_error]. now apply IH.
Qed.

Lemma getitem_map {A B : Type} (f : A -> B) (l : list A) (i : nat) (a : A) :
  nth_error l i = Some a -> Py.getitem (map f l) i = Py.Ok (f a).
Proof.
  intro H. unfold Py.getitem. now rewrite (map_nth_error f i l H).
Qed.

Lemma map_fst_combine {A B : Type} (la : list A) (lb : list B) :
  (length la <= length lb)%nat -> map fst (combine la lb) = la.
Proof.
  revert lb; induction la as [|a la IH]; intros [|b lb] Hlen;
    [reflexivity | reflexivity | simpl in Hlen; lia |].
  cbn [combine map fst]. f_equal. apply IH. simpl in Hlen. lia.
Qed.

(** ** Beam size driver *)

Lemma beam_cross_sections_combine
  (tw : Twiss.table) (sv : Survey.table) (scale : R) :
  beam_cross_sections (compute_beam_size sv tw)
    (Nat.min (length (Twiss.rows tw)) (length sv)) scale
  = Py.Ok (map (slice_ellipse (Twiss.gamma0 tw) scale)
               (combine (Twiss.rows tw) sv)).
Proof.
  unfold beam_cross_sections. rewrite sigx_rows, sigy_rows.
  rewrite <- length_combine.
  apply comprehension_seq. intros i [r f] Hi.
  apply nth_error_combine in Hi. destruct Hi as [Hr Hf].
  unfold compute_beam_size.
  cbn [bs_x bs_y bs_sx bs_sy bs_sz bs_theta].
  rewrite (getitem_map _ _ _ _ Hr). cbn [Py.bind].
  rewrite (getitem_map _ _ _ _ Hr). cbn [Py.bind].
  rewrite (getitem_map _ _ _ _ Hr). cbn [Py.bind].
  rewrite (getitem_map _ _ _ _ Hr). cbn [Py.bind].
  rewrite (getitem_map _ _ _ _ Hf). cbn [Py.bind].
  rewrite (getitem_map _ _ _ _ Hf). cbn [Py.bind].
  rewrite (getitem_map _ _ _ _ Hf). cbn [Py.bind].
  rewrite (getitem_map _ _ _ _ Hf). cbn [Py.bind].
  reflexivity.
Qed.

Lemma orbit_center_combine
  (rows : list Twiss.row) (gamma0 : R) (sv : Survey.table) (scale : R) :
  orbit_center (compute_beam_size sv (Twiss.mk rows gamma0))
    (Nat.min (length rows) (length sv)) scale
  = map (slice_center scale) (combine rows sv).
Proof.
  unfold orbit_center, compute_beam_size.
  cbn [bs_x bs_y bs_sx bs_sy bs_sz bs_theta Twiss.rows].
  unfold Vec.add, Vec.mul, Vec.scale_r.
  revert sv; induction rows as [|r rows IH]; intros [|f sv];
    [reflexivity | reflexivity | reflexivity |].
  cbn [length Nat.min map firstn Vec.map2 Vec.column_stack3 combine].
  rewrite IH. reflexivity.
Qed.

Lemma plot_beam_size_aligned
  (tw : Twiss.table) (sv : Survey.table) (scale : R) :
  plot_beam_size tw sv scale
  = (pts <- Np.array (map (slice_ellipse (Twiss.gamma0 tw) scale)
                          (combine (Twiss.rows tw) sv)) ;;
     surface <- mesh_from_polygons pts true ;;
     Py.Ok (surface, map (slice_center scale) (combine (Twiss.rows tw) sv))).
Proof.
  unfold plot_beam_size.
  assert (Hx : length (bs_x (compute_beam_size sv tw))
               = length (Twiss.rows tw))
    by (unfold compute_beam_size; cbn [bs_x]; apply length_map).
  assert (Ht : length (bs_theta (compute_beam_size sv tw)) = length sv)
    by (unfold compute_beam_size; cbn [bs_theta]; apply length_map).
  rewrite Hx, Ht, beam_cross_sections_combine. cbn [Py.bind].
  destruct tw as [rows gamma0]. cbn [Twiss.rows Twiss.gamma0].
  now rewrite orbit_center_combine.
Qed.

Lemma length_concat_uniform {A : Type} (ls : list (list A)) (n : nat) :
  (forall l, In l ls -> length l = n) ->
  length (concat ls) = (length ls * n)%nat.
Proof.
  induction ls as [|l ls IH]; intro H; [reflexivity|].
  cbn [concat length]. rewrite length_app, (H l) by (now left).
  rewrite IH; [reflexivity|]. intros l' Hl'. apply H. now right.
Qed.

Lemma slice_ellipse_length (gamma0 scale : R) (rf : Twiss.row * Survey.row) :
  length (slice_ellipse gamma0 scale rf) = 20%nat.
Proof.
  destruct rf as [r f]. unfold slice_ellipse.
  now rewrite ellipse_placed, length_map, length_seq.
Qed.

Lemma combine_truncated {A B : Type} (la : list A) (lb : list B) :
  let k := Nat.min (length la) (length lb) in
  combine (firstn k la) (firstn k lb) = combine la lb.
Proof.
  cbv zeta. rewrite <- combine_firstn.
  apply firstn_all2. rewrite length_combine. lia.
Qed.

(** C7: whatever the two lengths, the pipeline behaves as on both tables cut
    to the shorter length [k]: no cross-section index is out of range, there
    are [k] cross-sections, and as soon as [k >= 2] the pipeline returns a
    surface over [k] ellipses of 20 points and [k] orbit points. In
    particular this holds when the lengths differ by one. *)
Theorem beam_pipeline_truncates
  (tw : Twiss.table) (sv : Survey.table) (scale : R) :
  let k := Nat.min (length (Twiss.rows tw)) (length sv) in
  plot_beam_size tw sv scale
  = plot_beam_size (truncate_twiss k tw) (firstn k sv) scale
  /\ (exists polys,
        beam_cross_sections (compute_beam_size sv tw) k scale = Py.Ok polys
        /\ length polys = k)
  /\ ((2 <= k)%nat ->
      exists surface center,
        plot_beam_size tw sv scale = Py.Ok (surface, center)
        /\ length center = k
        /\ Pv.points surface
           = concat (map (slice_ellipse (Twiss.gamma0 tw) scale)
                         (combine (Twiss.rows tw) sv))
        /\ length (Pv.points surface) = (k * 20)%nat).
Proof.
  cbv zeta. set (k := Nat.min (length (Twiss.rows tw)) (length sv)).
  split; [|split].
  - rewrite !plot_beam_size_aligned. unfold truncate_twiss.
    cbn [Twiss.rows Twiss.gamma0]. unfold k.
    now rewrite (combine_truncated (Twiss.rows tw) sv).
  - eexists. split; [apply beam_cross_sections_combine|].
    now rewrite length_map, length_combine.
  - intro Hk. rewrite plot_beam_size_aligned.
    set (polys := map (slice_ellipse (Twiss.gamma0 tw) scale)
                      (combine (Twiss.rows tw) sv)).
    assert (Hlen : length polys = k)
      by (unfold polys; now rewrite length_map, length_combine).
    assert (Hall : forall p, In p polys -> length p = 20%nat).
    { intros p Hp. unfold polys in Hp. apply in_map_iff in Hp.
      destruct Hp as [rf [<- _]]. apply slice_ellipse_length. }
    assert (Hne : polys <> []) by (destruct polys; [simpl in Hlen; lia|easy]).
    rewrite (array_uniform polys 20 Hne Hall). cbn [Py.bind].
    rewrite (mesh_from_polygons_ok
               (Np.mk_ndarray [length polys; 20%nat; 3%nat]
                              (Np.flat (concat polys)))
               (length polys) 20 true eq_refl).
    + cbn [Py.bind Np.data]. do 2 eexists.
      split; [reflexivity|]. cbn [Pv.points].
      rewrite reshape3_flat.
      split; [now rewrite length_map, length_combine|].
      split; [reflexivity|].
      rewrite (length_concat_uniform polys 20 Hall). now rewrite Hlen.
    + rewrite face_indices_closed, length_range. lia.
Qed.

Lemma beam_pipeline_truncates_witness :
  let tw := Twiss.mk [ Twiss.mk_row 0 0 0 4 9 (-1) 2;
                       Twiss.mk_row 1 0 0 1 1 0 0;
                       Twiss.mk_row 2 0 0 1 4 0 0 ]%R 7000 in
  let sv := [ Survey.mk_row 0 0 0 0; Survey.mk_row 0 0 1 0 ]%R in
  length (Twiss.rows tw) = S (length sv)
  /\ exists surface center,
       plot_beam_size tw sv 300 = Py.Ok (surface, center)
       /\ length center = 2%nat
       /\ Pv.points surface
          = concat (map (slice_ellipse (Twiss.gamma0 tw) 300)
                        (combine (Twiss.rows tw) sv))
       /\ length (Pv.points surface) = (2 * 20)%nat.
Proof.
  intros tw sv. split; [reflexivity|].
  apply (beam_pipeline_truncates tw sv 300). simpl. lia.
Defined.

(** ** Aperture slicer *)

Lemma map_fst_filter {A B : Type} (q : A -> bool) (l : list (A * B)) :
  map fst (filter (fun ab => q (fst ab)) l) = filter q (map fst l).
Proof.
  induction l as [|[a b] l IH]; [reflexivity|].
  cbn [filter map fst]. destruct (q a); cbn [map fst]; now rewrite IH.
Qed.

(** C8: the cross-sections are built from the rows whose mask is true and
    from no other, in table order: the list has one cross-section per valid
    row, none for an invalid one, whose polygon is not even read. *)
Theorem aperture_slicer
  (ap : Aperture.table) (sv : Survey.table) (scale : R) :
  (length ap <= length sv)%nat ->
  (forall a, In a ap -> Aperture.aperture_mask a = true ->
             length (Aperture.polygon_x_discrete a)
             = length (Aperture.polygon_y_discrete a)) ->
  aperture_cross_sections ap sv scale
  = Py.Ok (map (slice_screen scale) (filter valid_slice (combine ap sv)))
  /\ map fst (filter valid_slice (combine ap sv))
     = filter Aperture.aperture_mask ap
  /\ length (filter valid_slice (combine ap sv))
     = count_occ bool_dec (map Aperture.aperture_mask ap) true.
Proof.
  intros Hlen Hpoly.
  assert (Hfst : map fst (combine ap sv) = ap) by now apply map_fst_combine.
  assert (Hord : map fst (filter valid_slice (combine ap sv))
                 = filter Aperture.aperture_mask ap).
  { unfold valid_slice.
    now rewrite (map_fst_filter Aperture.aperture_mask), Hfst. }
  split; [|split; [exact Hord|]].
  - unfold aperture_cross_sections, Np.where_.
    assert (Hmask : map Aperture.aperture_mask ap
                    = map valid_slice (combine ap sv)).
    { rewrite <- Hfst at 1. now rewrite map_map. }
    rewrite Hmask.
    apply comprehension_where. intros i [a f] Hi Hvalid. cbn [Nat.add].
    pose proof (nth_error_In _ _ Hi) as Hin.
    apply nth_error_combine in Hi. destruct Hi as [Ha Hf].
    rewrite (getitem_map _ _ _ _ Ha). cbn [Py.bind].
    rewrite (getitem_map _ _ _ _ Ha). cbn [Py.bind].
    rewrite (getitem_map _ _ _ _ Hf). cbn [Py.bind].
    rewrite (getitem_map _ _ _ _ Hf). cbn [Py.bind].
    rewrite (getitem_map _ _ _ _ Hf). cbn [Py.bind].
    rewrite (getitem_map _ _ _ _ Hf). cbn [Py.bind].
    apply make_screen_placed. unfold Vec.scale_r. rewrite !length_map.
    apply Hpoly; [|exact Hvalid].
    apply (in_combine_l _ _ _ _ Hin).
  - rewrite <- (length_map fst), Hord.
    clear. induction ap as [|a ap IH]; [reflexivity|].
    cbn [filter map count_occ].
    destruct (Aperture.aperture_mask a); cbn [length].
    + destruct (bool_dec true true) as [_|Hn]; [now rewrite IH|].
      now elim Hn.
    + destruct (bool_dec false true) as [Hn|_]; [discriminate Hn|exact IH].
Qed.

Lemma aperture_slicer_witness :
  let ap := [ Aperture.mk_row [1; 0; -1] [0; 1; 0] true;
              Aperture.mk_row [] [0] false;
              Aperture.mk_row [2; 0; -2] [0; 2; 0] true ]%R in
  let sv := [ Survey.mk_row 0 0 0 0; Survey.mk_row 0 0 1 0;
              Survey.mk_row 0 0 2 0 ]%R in
  map Aperture.aperture_mask ap = [true; false; true]
  /\ exists polys,
       aperture_cross_sections ap sv 300 = Py.Ok polys
       /\ length polys = 2%nat
       /\ polys = [ slice_screen 300 (nth 0 ap (Aperture.mk_row [] [] false),
                                      nth 0 sv (Survey.mk_row 0 0 0 0));
                    slice_screen 300 (nth 2 ap (Aperture.mk_row [] [] false),
                                      nth 2 sv (Survey.mk_row 0 0 0 0)) ].
Proof.
  intros ap sv. split; [reflexivity|].
  assert (Hlen : (length ap <= length sv)%nat) by (simpl; lia).
  assert (Hpoly : forall a, In a ap -> Aperture.aperture_mask a = true ->
                            length (Aperture.polygon_x_discrete a)
                            = length (Aperture.polygon_y_discrete a)).
  { intros a [<-|[<-|[<-|[]]]] Hm; try reflexivity. discriminate Hm. }
  destruct (aperture_slicer ap sv 300 Hlen Hpoly) as [Heq _].
  eexists. split; [exact Heq|]. split; reflexivity.
Defined.

(** * Further properties of the script *)

(** ** [clip] *)



(** X2: with a negative bound the two ends are crossed and [clip] returns
    [max_val] for every [x]. *)
Theorem clip_negative_bound (x max_val : R) :
  (max_val < 0)%R -> clip x max_val = max_val.
Proof.
  intro Hm. unfold clip, Rmin, Rmax.
  destruct (Rle_dec x (- max_val)) as [H1|H1];
    destruct (Rle_dec max_val _) as [H2|H2]; lra.
Qed.

Lemma clip_negative_bound_witness : clip 0 (- 1) = (- 1)%R.
Proof. apply (clip_negative_bound 0 (- 1)). lra. Defined.

Lemma clip_inside (x max_val : R) :
  (- max_val <= x <= max_val)%R -> clip x max_val = x.
Proof.
  intro Hx. unfold clip, Rmin, Rmax.
  destruct (Rle_dec x (- max_val)) as [H1|H1];
    destruct (Rle_dec max_val _) as [H2|H2]; lra.
Qed.

Lemma clip_range (x max_val : R) :
  (0 <= max_val)%R -> (- max_val <= clip x max_val <= max_val)%R.
Proof.
  intro Hm. unfold clip, Rmin, Rmax.
  destruct (Rle_dec x (- max_val)) as [H1|H1];
    destruct (Rle_dec max_val _) as [H2|H2]; lra.
Qed.

Lemma clip_crossed (x max_val : R) :
  (max_val < 0)%R -> clip x max_val = max_val.
Proof.
  intro Hm. unfold clip, Rmin, Rmax.
  destruct (Rle_dec x (- max_val)) as [H1|H1];
    destruct (Rle_dec max_val _) as [H2|H2]; lra.
Qed.


(** X3: clipping twice with one bound is clipping once, whatever the sign
    of the bound. *)
Theorem clip_idempotent (x max_val : R) :
  clip (clip x max_val) max_val = clip x max_val.
Proof.
  destruct (Rlt_le_dec max_val 0) as [Hneg|Hpos].
  - now rewrite !clip_crossed.
  - apply clip_inside. now apply clip_range.
Qed.



(** ** [cut_around] *)

Lemma linspace_nth (start stop : R) (n k : nat) :
  (k <= S n)%nat ->
  nth_error (Np.linspace start stop (S (S n))) k
  = Some (INR k * ((stop - start) / INR (S n)) + start)%R.
Proof.
  intro Hk. rewrite linspace_uniform, nth_error_map.
  assert (H : nth_error (seq 0 (S (S n))) k = Some k).
  { rewrite nth_error_nth' with (d := 0%nat) by (rewrite length_seq; lia).
    rewrite seq_nth by lia. reflexivity. }
  now rewrite H.
Qed.

Lemma fraction_of_span (k n : nat) (span : R) :
  (k <= S n)%nat -> (0 <= span)%R ->
  (0 <= INR k * (span / INR (S n)) <= span)%R.
Proof.
  intros Hk Hspan.
  assert (Hd : (0 < INR (S n))%R) by (apply lt_0_INR; lia).
  assert (Hk0 : (0 <= INR k)%R) by apply pos_INR.
  assert (Hkd : (INR k <= INR (S n))%R) by (apply le_INR; exact Hk).
  assert (Hq : (0 <= span / INR (S n))%R)
    by (apply Rmult_le_pos; [exact Hspan | apply Rlt_le, Rinv_0_lt_compat, Hd]).
  split; [now apply Rmult_le_pos|].
  replace span with (INR (S n) * (span / INR (S n)))%R at 2
    by (field; lra).
  apply Rmult_le_compat_r; assumption.
Qed.

(** X5: with at least two cuts and a non-negative window length, the cuts
    are [resolution] positions that start at [s_around - length / 2], end
    at [s_around + length / 2], never leave that window, advance by the
    constant step [length / (resolution - 1)], and are placed symmetrically
    about [s_around]. *)
Theorem cut_around_window (s_around span : R) (n : nat) :
  (0 <= span)%R ->
  let resolution := S (S n) in
  let cuts := cut_around s_around span resolution in
  length cuts = resolution
  /\ nth_error cuts 0 = Some (s_around - span / 2)%R
  /\ nth_error cuts (resolution - 1) = Some (s_around + span / 2)%R
  /\ (forall c, In c cuts ->
        (s_around - span / 2 <= c <= s_around + span / 2)%R)
  /\ (forall k, (S k < resolution)%nat ->
        exists a b,
          nth_error cuts k = Some a /\ nth_error cuts (S k) = Some b
          /\ (b - a = span / INR (resolution - 1))%R)
  /\ (forall k, (k < resolution)%nat ->
        exists a b,
          nth_error cuts k = Some a
          /\ nth_error cuts (resolution - 1 - k) = Some b
          /\ (a + b = 2 * s_around)%R).
Proof.
  intros Hspan resolution cuts. subst resolution cuts. unfold cut_around.
  assert (Hd : INR (S n) <> 0%R) by (apply not_0_INR; lia).
  replace (S (S n) - 1)%nat with (S n) by lia.
  split; [apply linspace_length|].
  split; [rewrite linspace_nth by lia; f_equal; simpl; field; exact Hd|].
  split; [rewrite linspace_nth by lia; f_equal; field; exact Hd|].
  split; [|split].
  - intros c Hc. apply In_nth_error in Hc. destruct Hc as [k Hk].
    assert (Hlt : (k < S (S n))%nat).
    { rewrite <- (linspace_length (s_around - span / 2)
                                  (s_around + span / 2) (S (S n))).
      apply nth_error_Some. now rewrite Hk. }
    rewrite linspace_nth in Hk by lia.
    replace (s_around + span / 2 - (s_around - span / 2))%R with span
      in Hk by field.
    assert (Hc : c = (INR k * (span / INR (S n))
                      + (s_around - span / 2))%R) by congruence.
    pose proof (fraction_of_span k n span ltac:(lia) Hspan). lra.
  - intros k Hk. do 2 eexists.
    rewrite !linspace_nth by lia.
    split; [reflexivity|]. split; [reflexivity|].
    rewrite S_INR. field. exact Hd.
  - intros k Hk. do 2 eexists.
    rewrite !linspace_nth by lia.
    split; [reflexivity|]. split; [reflexivity|].
    rewrite minus_INR by lia. field. exact Hd.
Qed.

Lemma cut_around_window_witness :
  let cuts := cut_around 1000 135 200 in
  length cuts = 200%nat
  /\ nth_error cuts 0 = Some (1000 - 135 / 2)%R
  /\ nth_error cuts (200 - 1) = Some (1000 + 135 / 2)%R
  /\ (forall c, In c cuts -> (1000 - 135 / 2 <= c <= 1000 + 135 / 2)%R)
  /\ (forall k, (S k < 200)%nat ->
        exists a b,
          nth_error cuts k = Some a /\ nth_error cuts (S k) = Some b
          /\ (b - a = 135 / INR (200 - 1))%R)
  /\ (forall k, (k < 200)%nat ->
        exists a b,
          nth_error cuts k = Some a
          /\ nth_error cuts (200 - 1 - k) = Some b
          /\ (a + b = 2 * 1000)%R).
Proof. apply (cut_around_window 1000 135 198). lra. Defined.

(** ** When the mesher raises, and what its faces point at *)

Lemma length_face_indices_closed (N P : nat) :
  length (face_indices true (Z.of_nat N) (Z.of_nat P))
  = (P * (N - 1) - 1)%nat.
Proof. rewrite face_indices_closed, length_range. nia. Qed.

Lemma length_face_indices_open_nat (N P : nat) :
  length (face_indices false (Z.of_nat N) (Z.of_nat P))
  = ((N - 1) * (P - 1))%nat.
Proof.
  destruct P as [|P'].
  - unfold face_indices. rewrite range_nonpos by nia.
    simpl. lia.
  - rewrite length_face_indices_open by lia. lia.
Qed.

Lemma mesh_from_polygons_raise_iff (pts : Np.ndarray) (N P : nat)
  (close : bool) :
  Np.shape pts = [N; P; 3%nat] ->
  (mesh_from_polygons pts close = Py.Raise Py.ValueError
   <-> length (face_indices close (Z.of_nat N) (Z.of_nat P)) = 0%nat)
  /\ (forall e, mesh_from_polygons pts close = Py.Raise e ->
                e = Py.ValueError).
Proof.
  intro Hs. rewrite (mesh_from_polygons_shape _ _ _ _ Hs).
  destruct (face_indices close (Z.of_nat N) (Z.of_nat P)) as [|k ks].
  - split; [split; reflexivity|]. intros e He. now injection He as <-.
  - split; [split; intro H; discriminate H|]. intros e He. discriminate He.
Qed.

(** X6: on a (N, P, 3) array the only exception of the mesher is
    [ValueError]; the closed mesher raises it exactly when
    [P * (N - 1) < 2] (fewer than two slices, no point, or two slices of one
    point) and the open mesher exactly when there are fewer than two slices
    or fewer than two points per slice. *)
Theorem mesher_raises_exactly (pts : Np.ndarray) (N P : nat) :
  Np.shape pts = [N; P; 3%nat] ->
  (mesh_from_polygons pts true = Py.Raise Py.ValueError
   <-> (P * (N - 1) < 2)%nat)
  /\ (mesh_from_polygons pts false = Py.Raise Py.ValueError
      <-> (N < 2)%nat \/ (P < 2)%nat)
  /\ (forall close e, mesh_from_polygons pts close = Py.Raise e ->
                      e = Py.ValueError).
Proof.
  intro Hs. split; [|split].
  - destruct (mesh_from_polygons_raise_iff pts N P true Hs) as [-> _].
    rewrite length_face_indices_closed. lia.
  - destruct (mesh_from_polygons_raise_iff pts N P false Hs) as [-> _].
    rewrite length_face_indices_open_nat. nia.
  - intros close. now apply (mesh_from_polygons_raise_iff pts N P close Hs).
Qed.

Lemma mesher_raises_exactly_witness :
  (mesh_from_polygons (zeros [2; 1; 3]%nat) true = Py.Raise Py.ValueError
   <-> (1 * (2 - 1) < 2)%nat)
  /\ (mesh_from_polygons (zeros [2; 1; 3]%nat) false = Py.Raise Py.ValueError
      <-> (2 < 2)%nat \/ (1 < 2)%nat)
  /\ (forall close e,
        mesh_from_polygons (zeros [2; 1; 3]%nat) close = Py.Raise e ->
        e = Py.ValueError).
Proof.
  apply (mesher_raises_exactly (zeros [2; 1; 3]%nat) 2 1). reflexivity.
Defined.

(** X7: on exactly two slices the [close] flag changes nothing: the only
    face it could add is the one the running index stops short of. *)
Theorem two_slices_ignore_close (pts : Np.ndarray) (P : nat) :
  Np.shape pts = [2%nat; P; 3%nat] ->
  mesh_from_polygons pts true = mesh_from_polygons pts false.
Proof.
  intro Hs. rewrite !(mesh_from_polygons_shape _ _ _ _ Hs).
  assert (Hk : face_indices true (Z.of_nat 2) (Z.of_nat P)
               = face_indices false (Z.of_nat 2) (Z.of_nat P)).
  { unfold face_indices. apply filter_ext_in. intros k Hk.
    apply in_range in Hk. unfold keep_face. cbn [orb].
    symmetry. apply negb_true_iff, Z.eqb_neq.
    rewrite Z.mod_small by lia. lia. }
  now rewrite Hk.
Qed.

Lemma two_slices_ignore_close_witness :
  mesh_from_polygons (zeros [2; 4; 3]%nat) true
  = mesh_from_polygons (zeros [2; 4; 3]%nat) false.
Proof.
  apply (two_slices_ignore_close (zeros [2; 4; 3]%nat) 4). reflexivity.
Defined.

Lemma reshape3_length (n : nat) :
  forall buf, length buf = (3 * n)%nat -> length (Np.reshape3 buf) = n.
Proof.
  induction n as [|n IH]; intros buf Hlen.
  - destruct buf; [reflexivity | simpl in Hlen; lia].
  - destruct buf as [|a [|b [|c rest]]]; try (simpl in Hlen; lia).
    cbn [Np.reshape3 length]. f_equal. apply IH. simpl in Hlen. lia.
Qed.

Lemma mesh_from_polygons_inv (pts : Np.ndarray) (N P : nat) (close : bool)
  (m : Pv.PolyData) :
  Np.shape pts = [N; P; 3%nat] ->
  mesh_from_polygons pts close = Py.Ok m ->
  m = Pv.mk (Np.reshape3 (Np.data pts))
            (concat (map (quad (Z.of_nat P))
                         (face_indices close (Z.of_nat N) (Z.of_nat P)))).
Proof.
  intros Hs Hm. rewrite (mesh_from_polygons_shape _ _ _ _ Hs) in Hm.
  destruct (face_indices close (Z.of_nat N) (Z.of_nat P));
    [discriminate Hm | now injection Hm as <-].
Qed.

(** X8: whichever the [close] flag, a mesh returned for a (N, P, 3) array
    has the [N * P] input points as vertices and only cells of four
    corners, each corner the index of one of these vertices: no face
    points outside the vertex buffer. *)
Theorem mesh_indices_in_buffer (pts : Np.ndarray) (N P : nat) (close : bool)
  (m : Pv.PolyData) :
  Np.shape pts = [N; P; 3%nat] ->
  length (Np.data pts) = (N * P * 3)%nat ->
  mesh_from_polygons pts close = Py.Ok m ->
  length (Pv.points m) = (N * P)%nat
  /\ exists fs,
       Pv.cells m = Some fs
       /\ forall f, In f fs ->
            length f = 4%nat
            /\ forall v, In v f ->
                 (0 <= v < Z.of_nat (length (Pv.points m)))%Z.
Proof.
  intros Hs Hdata Hm.
  rewrite (mesh_from_polygons_inv _ _ _ _ _ Hs Hm). cbn [Pv.points].
  assert (Hlen : length (Np.reshape3 (Np.data pts)) = (N * P)%nat)
    by (apply reshape3_length; lia).
  split; [exact Hlen|]. rewrite Hlen.
  eexists. split; [apply cells_quads|].
  intros f Hf. apply in_map_iff in Hf. destruct Hf as [k [<- Hk]].
  apply face_indices_bound in Hk.
  split; [reflexivity|].
  intros v Hv. cbn [quad_corners In] in Hv.
  destruct Hv as [<-|[<-|[<-|[<-|[]]]]]; nia.
Qed.

Lemma mesh_indices_in_buffer_witness :
  exists m,
    mesh_from_polygons (zeros [3; 2; 3]%nat) false = Py.Ok m
    /\ length (Pv.points m) = (3 * 2)%nat
    /\ exists fs,
         Pv.cells m = Some fs
         /\ forall f, In f fs ->
              length f = 4%nat
              /\ forall v, In v f ->
                   (0 <= v < Z.of_nat (length (Pv.points m)))%Z.
Proof.
  eexists. split; [reflexivity|].
  apply (mesh_indices_in_buffer (zeros [3; 2; 3]%nat) 3 2 false);
    reflexivity.
Defined.

(** ** Geometry of the cross-sections *)

Lemma place_on_ellipse (theta x y z a b bx bz t : R) :
  on_ellipse a b (place theta x y z (bx, 0%R, bz))
             (place theta x y z (ellipse_local a b bx bz t)).
Proof.
  unfold on_ellipse, place, ellipse_local.
  pose proof (sin2_cos2 theta) as Hth. pose proof (sin2_cos2 t) as Ht.
  unfold Rsqr in Hth, Ht.
  set (c := cos theta) in *. set (s := sin theta) in *.
  set (ct := cos t) in *. set (st := sin t) in *.
  replace (b * b
           * ((x + (c * (a * ct + bx) - s * 0) - (x + (c * bx - s * 0)))
              * (x + (c * (a * ct + bx) - s * 0) - (x + (c * bx - s * 0)))
              + (y + (s * (a * ct + bx) + c * 0) - (y + (s * bx + c * 0)))
                * (y + (s * (a * ct + bx) + c * 0) - (y + (s * bx + c * 0))))
           + a * a * ((z + (b * st + bz) - (z + bz))
                      * (z + (b * st + bz) - (z + bz))))%R
    with (a * a * (b * b) * (ct * ct * (s * s + c * c) + st * st))%R by ring.
  rewrite Hth.
  replace (ct * ct * 1 + st * st)%R with (st * st + ct * ct)%R by ring.
  rewrite Ht. ring.
Qed.

(** X9: whatever the angle, every point of [ellipse] lies on the ellipse of
    radii [rxy] and [rz] whose centre is the placed beam offset
    (beam_xy, 0, beam_z): with no offset, the ellipse is centred at
    (x, y, z). *)
Theorem ellipse_centred_on_beam (rxy rz beam_xy beam_z x y z theta : R) :
  Forall (on_ellipse rxy rz (place theta x y z (beam_xy, 0%R, beam_z)))
         (ellipse rxy rz beam_xy beam_z x y z theta)
  /\ place theta x y z (0%R, 0%R, 0%R) = (x, y, z).
Proof.
  split.
  - rewrite ellipse_placed. apply Forall_forall. intros p Hp.
    apply in_map_iff in Hp. destruct Hp as [k [<- _]].
    apply place_on_ellipse.
  - unfold place. f_equal; [f_equal|]; ring.
Qed.

Lemma place_in_plane (theta x y z lx lz : R) :
  in_slice_plane theta x y (place theta x y z (lx, 0%R, lz)).
Proof. unfold in_slice_plane, place. ring. Qed.

Lemma zip_xz_in_plane (theta x y z : R) (xs ys : list R) :
  Forall (in_slice_plane theta x y)
         (map (place theta x y z) (Np.zip_xz xs ys)).
Proof.
  revert ys. induction xs as [|u xs IH]; intros [|v ys];
    try (apply Forall_nil).
  cbn [Np.zip_xz map]. apply Forall_cons; [apply place_in_plane | apply IH].
Qed.

(** X10: every point of each of the three generators lies in the vertical
    plane through (x, y) of direction [theta]: a cross-section is flat and
    turned about the vertical through its centre. *)
Theorem cross_sections_in_plane
  (rxy rz beam_xy beam_z : R) (xs ys : list R)
  (x_min x_max y_min y_max : R) (close : bool) (x y z theta : R) :
  length xs = length ys ->
  Forall (in_slice_plane theta x y)
         (ellipse rxy rz beam_xy beam_z x y z theta)
  /\ (exists pts,
        make_screen xs ys x y z theta = Py.Ok pts
        /\ length pts = length xs
        /\ Forall (in_slice_plane theta x y) pts)
  /\ Forall (in_slice_plane theta x y)
            (make_rectangular_screen x_min x_max y_min y_max x y z theta
                                     close).
Proof.
  intro Hlen. split; [|split].
  - rewrite ellipse_placed. apply Forall_forall. intros p Hp.
    apply in_map_iff in Hp. destruct Hp as [k [<- _]].
    apply place_in_plane.
  - eexists. split; [now apply make_screen_placed|]. split.
    + rewrite length_map. clear - Hlen. revert ys Hlen.
      induction xs as [|u xs IH]; intros [|v ys] Hlen;
        try discriminate Hlen; [reflexivity|].
      cbn [Np.zip_xz length]. f_equal. apply IH. now injection Hlen.
    + apply zip_xz_in_plane.
  - rewrite make_rectangular_screen_placed. unfold rectangle_local.
    repeat (apply Forall_cons; [apply place_in_plane|]). apply Forall_nil.
Qed.

Lemma cross_sections_in_plane_witness :
  Forall (in_slice_plane (PI / 3) 1 2) (ellipse 2 1 0 0 1 2 3 (PI / 3))
  /\ (exists pts,
        make_screen [1; 0; -1]%R [0; 1; 0]%R 1 2 3 (PI / 3) = Py.Ok pts
        /\ length pts = length [1; 0; -1]%R
        /\ Forall (in_slice_plane (PI / 3) 1 2) pts)
  /\ Forall (in_slice_plane (PI / 3) 1 2)
            (make_rectangular_screen (-1) 1 (-2) 2 1 2 3 (PI / 3) false).
Proof.
  apply (cross_sections_in_plane 2 1 0 0 [1; 0; -1]%R [0; 1; 0]%R
                                 (-1) 1 (-2) 2 false 1 2 3 (PI / 3)).
  reflexivity.
Defined.

Lemma zip_xz_length (xs ys : list R) :
  length xs = length ys -> length (Np.zip_xz xs ys) = length xs.
Proof.
  revert ys; induction xs as [|u xs IH]; intros [|v ys] Hlen;
    try discriminate Hlen; [reflexivity|].
  cbn [Np.zip_xz length]. f_equal. apply IH. now injection Hlen.
Qed.

Lemma zip_xz_unturned (x y z : R) (xs ys : list R) :
  map (place 0 x y z) (Np.zip_xz xs ys)
  = map (fun '(lx, lz) => ((x + lx)%R, y, (z + lz)%R)) (combine xs ys).
Proof.
  revert ys; induction xs as [|u xs IH]; intros [|v ys];
    try reflexivity.
  cbn [Np.zip_xz combine map]. rewrite IH. f_equal.
  unfold place. rewrite cos_0, sin_0.
  apply f_equal2; [apply f_equal2|]; ring.
Qed.

(** X11: [make_screen] raises exactly when its two coordinate arrays differ
    in length, and then [ValueError]; when they agree it returns one point
    per coordinate pair, and with [theta = 0] the polygon is only moved:
    point [k] is (x + xs[k], y, z + ys[k]). *)
Theorem make_screen_result (xs ys : list R) (x y z theta : R) :
  (make_screen xs ys x y z theta = Py.Raise Py.ValueError
   <-> length xs <> length ys)
  /\ (forall e, make_screen xs ys x y z theta = Py.Raise e ->
                e = Py.ValueError)
  /\ (length xs = length ys ->
      (exists pts, make_screen xs ys x y z theta = Py.Ok pts
                   /\ length pts = length xs)
      /\ make_screen xs ys x y z 0
         = Py.Ok (map (fun '(lx, lz) => ((x + lx)%R, y, (z + lz)%R))
                      (combine xs ys))).
Proof.
  split; [|split].
  - unfold make_screen, Np.column_stack_x0y.
    destruct (Nat.eqb (length xs) (length ys)) eqn:E; cbn [Py.bind].
    + apply Nat.eqb_eq in E. split; [intro H; discriminate H | tauto].
    + apply Nat.eqb_neq in E. tauto.
  - unfold make_screen, Np.column_stack_x0y.
    destruct (Nat.eqb (length xs) (length ys)); cbn [Py.bind];
      intros e He; [discriminate He | now injection He as <-].
  - intro Hlen. split.
    + eexists. split; [now apply make_screen_placed|].
      rewrite length_map. now apply zip_xz_length.
    + rewrite make_screen_placed by assumption.
      f_equal. apply zip_xz_unturned.
Qed.

Lemma make_screen_result_witness :
  (make_screen [1; 2]%R [3]%R 0 0 0 1 = Py.Raise Py.ValueError
   <-> length [1; 2]%R <> length [3]%R)
  /\ (exists pts, make_screen [1; 2]%R [3; 4]%R 5 6 7 1 = Py.Ok pts
                  /\ length pts = 2%nat)
  /\ make_screen [1; 2]%R [3; 4]%R 5 6 7 0
     = Py.Ok [ ((5 + 1)%R, 6%R, (7 + 3)%R); ((5 + 2)%R, 6%R, (7 + 4)%R) ].
Proof.
  split; [apply (make_screen_result [1; 2]%R [3]%R 0 0 0 1)|].
  apply (make_screen_result [1; 2]%R [3; 4]%R 5 6 7 1). reflexivity.
Defined.

(** ** The beam-size driver, end to end *)

Lemma plot_beam_size_ok (tw : Twiss.table) (sv : Survey.table) (scale : R) :
  let l := combine (Twiss.rows tw) sv in
  let polys := map (slice_ellipse (Twiss.gamma0 tw) scale) l in
  (2 <= length l)%nat ->
  plot_beam_size tw sv scale
  = Py.Ok (Pv.mk (concat polys)
                 (concat (map (quad 20)
                              (face_indices true (Z.of_nat (length l)) 20))),
           map (slice_center scale) l).
Proof.
  intros l polys Hk. rewrite plot_beam_size_aligned. fold l. fold polys.
  assert (Hlen : length polys = length l)
    by (unfold polys; apply length_map).
  assert (Hall : forall p, In p polys -> length p = 20%nat).
  { intros p Hp. unfold polys in Hp. apply in_map_iff in Hp.
    destruct Hp as [rf [<- _]]. apply slice_ellipse_length. }
  assert (Hne : polys <> []) by (destruct polys; [simpl in Hlen; lia|easy]).
  rewrite (array_uniform polys 20 Hne Hall). cbn [Py.bind].
  rewrite (mesh_from_polygons_ok
             (Np.mk_ndarray [length polys; 20%nat; 3%nat]
                            (Np.flat (concat polys)))
             (length polys) 20 true eq_refl).
  - cbn [Py.bind Np.data]. rewrite reshape3_flat, Hlen. reflexivity.
  - rewrite length_face_indices_closed. lia.
Qed.

(** X12: when fewer than two rows are common to the optics and the survey
    selection, the beam-size driver raises [ValueError]: with none the
    array of cross-sections is 1-D and its shape cannot be unpacked, with
    one the mesher has no face to stack. *)
Theorem beam_pipeline_few_rows
  (tw : Twiss.table) (sv : Survey.table) (scale : R) :
  (Nat.min (length (Twiss.rows tw)) (length sv) < 2)%nat ->
  plot_beam_size tw sv scale = Py.Raise Py.ValueError.
Proof.
  intro Hk. rewrite plot_beam_size_aligned.
  rewrite <- length_combine in Hk.
  destruct (combine (Twiss.rows tw) sv) as [|rf [|rf' l]];
    [reflexivity | | simpl in Hk; lia].
  cbn [map]. unfold Np.array. cbn [forallb].
  rewrite Nat.eqb_refl. cbn [andb Py.bind length].
  set (P := length (slice_ellipse (Twiss.gamma0 tw) scale rf)).
  set (pts := Np.mk_ndarray _ _).
  rewrite (mesh_from_polygons_shape pts 1 P true eq_refl).
  now rewrite face_indices_few_slices by lia.
Qed.

Lemma beam_pipeline_few_rows_witness :
  plot_beam_size (Twiss.mk [ Twiss.mk_row 0 0 0 4 9 (-1) 2;
                             Twiss.mk_row 1 0 0 1 1 0 0 ]%R 7000)
                 [ Survey.mk_row 0 0 0 0 ]%R 300
  = Py.Raise Py.ValueError.
Proof. apply beam_pipeline_few_rows. simpl. lia. Defined.

(** X13: with [k >= 2] common rows the envelope surface has [20 * k]
    vertices and exactly [20 * (k - 1) - 1] faces, and there are [k] orbit
    points. *)
Theorem beam_surface_size
  (tw : Twiss.table) (sv : Survey.table) (scale : R) :
  let k := Nat.min (length (Twiss.rows tw)) (length sv) in
  (2 <= k)%nat ->
  exists surface center,
    plot_beam_size tw sv scale = Py.Ok (surface, center)
    /\ length (Pv.points surface) = (20 * k)%nat
    /\ n_faces surface = Some (20 * (k - 1) - 1)%nat
    /\ length center = k.
Proof.
  cbv zeta. rewrite <- length_combine. intro Hk.
  do 2 eexists. split; [now apply plot_beam_size_ok|].
  cbn [Pv.points]. split; [|split].
  - rewrite (length_concat_uniform _ 20).
    + rewrite length_map. lia.
    + intros p Hp. apply in_map_iff in Hp.
      destruct Hp as [rf [<- _]]. apply slice_ellipse_length.
  - unfold n_faces. rewrite cells_quads. cbn [option_map].
    rewrite length_map.
    change 20%Z with (Z.of_nat 20).
    now rewrite length_face_indices_closed.
  - apply length_map.
Qed.

Lemma beam_surface_size_witness :
  let tw := Twiss.mk [ Twiss.mk_row 0 0 0 4 9 (-1) 2;
                       Twiss.mk_row 1 0 0 1 1 0 0;
                       Twiss.mk_row 2 0 0 1 4 0 0 ]%R 7000 in
  let sv := [ Survey.mk_row 0 0 0 0; Survey.mk_row 0 0 1 0;
              Survey.mk_row 0 0 2 0 ]%R in
  exists surface center,
    plot_beam_size tw sv 300 = Py.Ok (surface, center)
    /\ length (Pv.points surface) = (20 * 3)%nat
    /\ n_faces surface = Some (20 * (3 - 1) - 1)%nat
    /\ length center = 3%nat.
Proof.
  intros tw sv. apply (beam_surface_size tw sv 300). simpl. lia.
Defined.

Lemma nth_error_combine_both {A B : Type} (la : list A) (lb : list B)
  (i : nat) (a : A) (b : B) :
  nth_error la i = Some a -> nth_error lb i = Some b ->
  nth_error (combine la lb) i = Some (a, b).
Proof.
  revert lb i; induction la as [|a0 la IH]; intros [|b0 lb] [|i] Ha Hb;
    try discriminate Ha; try discriminate Hb.
  - cbn in *. now injection Ha as ->; injection Hb as ->.
  - cbn in *. now apply IH.
Qed.

Lemma slice_center_placed (scale : R) (r : Twiss.row) (f : Survey.row) :
  slice_center scale (r, f)
  = place (Survey.theta f) (Survey.X f) (Survey.Z f) (Survey.Y f)
          ((Twiss.x r * scale)%R, 0%R, (Twiss.y r * scale)%R).
Proof.
  unfold slice_center, place. apply f_equal2; [apply f_equal2|]; ring.
Qed.

(** X14: the orbit line passes through the centre of every envelope
    cross-section: for each common row [i], orbit point [i] is the placed
    orbit offset (x * scale, 0, y * scale) of survey frame [i], and each of
    the 20 vertices of cross-section [i] lies on the ellipse of radii
    [sigx * scale] and [sigy * scale] centred at that orbit point. *)
Theorem orbit_through_envelope_centres
  (tw : Twiss.table) (sv : Survey.table) (scale : R) :
  (2 <= Nat.min (length (Twiss.rows tw)) (length sv))%nat ->
  exists surface center,
    plot_beam_size tw sv scale = Py.Ok (surface, center)
    /\ forall i r f,
         nth_error (Twiss.rows tw) i = Some r ->
         nth_error sv i = Some f ->
         exists c,
           nth_error center i = Some c
           /\ c = place (Survey.theta f)
                        (Survey.X f) (Survey.Z f) (Survey.Y f)
                        ((Twiss.x r * scale)%R, 0%R, (Twiss.y r * scale)%R)
           /\ forall j, (j < 20)%nat ->
                exists p,
                  nth_error (Pv.points surface) (20 * i + j) = Some p
                  /\ on_ellipse (sigma_x (Twiss.gamma0 tw) r * scale)
                                (sigma_y (Twiss.gamma0 tw) r * scale) c p.
Proof.
  rewrite <- length_combine. intro Hk.
  do 2 eexists. split; [now apply plot_beam_size_ok|].
  intros i r f Hr Hf.
  pose proof (nth_error_combine_both _ _ _ _ _ Hr Hf) as Hrf.
  eexists. split; [apply (map_nth_error _ _ _ Hrf)|].
  split; [apply slice_center_placed|].
  intros j Hj. cbn [Pv.points].
  rewrite (nth_error_concat_uniform _ 20 i j
             (slice_ellipse (Twiss.gamma0 tw) scale (r, f))).
  - unfold slice_ellipse. rewrite ellipse_placed, nth_error_map.
    assert (Hseq : nth_error (seq 0 20) j = Some j).
    { rewrite nth_error_nth' with (d := 0%nat) by (rewrite length_seq; lia).
      rewrite seq_nth by lia. reflexivity. }
    rewrite Hseq. cbn [option_map]. eexists. split; [reflexivity|].
    rewrite slice_center_placed. apply place_on_ellipse.
  - intros p Hp. apply in_map_iff in Hp.
    destruct Hp as [rf [<- _]]. apply slice_ellipse_length.
  - apply (map_nth_error _ _ _ Hrf).
  - exact Hj.
Qed.

Lemma orbit_through_envelope_centres_witness :
  let tw := Twiss.mk [ Twiss.mk_row 0 1 2 4 9 (-1) 2;
                       Twiss.mk_row 1 0 0 1 1 0 0 ]%R 7000 in
  let sv := [ Survey.mk_row 0 0 0 0; Survey.mk_row 0 0 1 0 ]%R in
  exists surface center,
    plot_beam_size tw sv 300 = Py.Ok (surface, center)
    /\ forall i r f,
         nth_error (Twiss.rows tw) i = Some r ->
         nth_error sv i = Some f ->
         exists c,
           nth_error center i = Some c
           /\ c = place (Survey.theta f)
                        (Survey.X f) (Survey.Z f) (Survey.Y f)
                        ((Twiss.x r * 300)%R, 0%R, (Twiss.y r * 300)%R)
           /\ forall j, (j < 20)%nat ->
                exists p,
                  nth_error (Pv.points surface) (20 * i + j) = Some p
                  /\ on_ellipse (sigma_x (Twiss.gamma0 tw) r * 300)
                                (sigma_y (Twiss.gamma0 tw) r * 300) c p.
Proof.
  intros tw sv. apply (orbit_through_envelope_centres tw sv 300).
  simpl. lia.
Defined.

(** ** The aperture driver, end to end *)

Lemma comprehension_ext_in {A B : Type} (f g : A -> Py.result B)
  (l : list A) :
  (forall a, In a l -> f a = g a) ->
  Py.comprehension f l = Py.comprehension g l.
Proof.
  induction l as [|a l IH]; intro H; [reflexivity|].
  cbn [Py.comprehension]. rewrite (H a) by (now left).
  rewrite IH; [reflexivity|]. intros b Hb. apply H. now right.
Qed.

Lemma comprehension_raise {A B : Type} (body : A -> Py.result B)
  (l : list A) (e : Py.exn) :
  (forall a, In a l -> (exists b, body a = Py.Ok b) \/ body a = Py.Raise e) ->
  (exists a, In a l /\ body a = Py.Raise e) ->
  Py.comprehension body l = Py.Raise e.
Proof.
  induction l as [|a l IH]; intros Hall [a0 [Hin Hraise]]; [destruct Hin|].
  cbn [Py.comprehension].
  destruct (Hall a (or_introl eq_refl)) as [[b Hb]|Hb];
    [|now rewrite Hb].
  rewrite Hb. cbn [Py.bind]. rewrite IH; [reflexivity | |].
  - intros a' Ha'. apply Hall. now right.
  - destruct Hin as [->|Hin]; [congruence|]. now exists a0.
Qed.

Lemma in_where_from (mask : list bool) :
  forall o i,
    In i (Np.where_from o mask)
    <-> (o <= i)%nat /\ nth_error mask (i - o) = Some true.
Proof.
  induction mask as [|b mask IH]; intros o i.
  - cbn [Np.where_from In]. split; [tauto|].
    intros [_ H]. destruct (i - o)%nat; discriminate H.
  - cbn [Np.where_from].
    assert (Htail : In i (Np.where_from (S o) mask)
                    <-> (o < i)%nat
                        /\ nth_error (b :: mask) (i - o) = Some true).
    { rewrite IH. split; intros [Hle Hn]; (split; [lia|]).
      - replace (i - o)%nat with (S (i - S o)) by lia. exact Hn.
      - replace (i - o)%nat with (S (i - S o)) in Hn by lia. exact Hn. }
    destruct b; cbn [In]; rewrite Htail.
    + split.
      * intros [<-|[Hlt Hn]]; [|split; [lia|exact Hn]].
        split; [lia|]. now rewrite Nat.sub_diag.
      * intros [Hle Hn]. destruct (Nat.eq_dec o i) as [->|Hne];
          [now left | right; split; [lia|exact Hn]].
    + split.
      * intros [Hlt Hn]. split; [lia|exact Hn].
      * intros [Hle Hn]. destruct (Nat.eq_dec o i) as [->|Hne];
          [rewrite Nat.sub_diag in Hn; discriminate Hn
          | split; [lia|exact Hn]].
Qed.

Lemma in_where (ap : Aperture.table) (i : nat) :
  In i (Np.where_ (map Aperture.aperture_mask ap))
  <-> exists a, nth_error ap i = Some a /\ Aperture.aperture_mask a = true.
Proof.
  unfold Np.where_. rewrite in_where_from, Nat.sub_0_r, nth_error_map.
  split.
  - intros [_ H]. destruct (nth_error ap i) as [a|]; [|discriminate H].
    exists a. split; [reflexivity|]. now injection H.
  - intros [a [Ha Hm]]. split; [lia|]. now rewrite Ha, <- Hm.
Qed.

(** X15: the aperture driver never reads an invalid row: two aperture
    tables with the same mask and the same valid rows give the same
    cross-sections, and the same exception if any, whatever the invalid
    rows hold. *)
Theorem aperture_invalid_rows_unread
  (ap ap' : Aperture.table) (sv : Survey.table) (scale : R) :
  map Aperture.aperture_mask ap = map Aperture.aperture_mask ap' ->
  (forall i a, nth_error ap i = Some a -> Aperture.aperture_mask a = true ->
               nth_error ap' i = Some a) ->
  aperture_cross_sections ap sv scale = aperture_cross_sections ap' sv scale
  /\ forall close,
       plot_apertures ap sv close scale = plot_apertures ap' sv close scale.
Proof.
  intros Hmask Hvalid.
  assert (H : aperture_cross_sections ap sv scale
              = aperture_cross_sections ap' sv scale).
  { unfold aperture_cross_sections. rewrite <- Hmask.
    apply comprehension_ext_in. intros i Hi.
    apply in_where in Hi. destruct Hi as [a [Ha Hm]].
    pose proof (Hvalid i a Ha Hm) as Ha'.
    rewrite (getitem_map Aperture.polygon_x_discrete ap i a Ha).
    rewrite (getitem_map Aperture.polygon_x_discrete ap' i a Ha').
    cbn [Py.bind].
    rewrite (getitem_map Aperture.polygon_y_discrete ap i a Ha).
    rewrite (getitem_map Aperture.polygon_y_discrete ap' i a Ha').
    reflexivity. }
  split; [exact H|]. intro close. unfold plot_apertures. now rewrite H.
Qed.

Lemma aperture_invalid_rows_unread_witness :
  let sv := [ Survey.mk_row 0 0 0 0; Survey.mk_row 0 0 1 0;
              Survey.mk_row 0 0 2 0 ]%R in
  let ap := [ Aperture.mk_row [1; 0; -1] [0; 1; 0] true;
              Aperture.mk_row [] [0] false;
              Aperture.mk_row [2; 0; -2] [0; 2; 0] true ]%R in
  let ap' := [ Aperture.mk_row [1; 0; -1] [0; 1; 0] true;
               Aperture.mk_row [7; 7] [7; 7] false;
               Aperture.mk_row [2; 0; -2] [0; 2; 0] true ]%R in
  aperture_cross_sections ap sv 300 = aperture_cross_sections ap' sv 300
  /\ forall close,
       plot_apertures ap sv close 300 = plot_apertures ap' sv close 300.
Proof.
  intros sv ap ap'. apply (aperture_invalid_rows_unread ap ap' sv 300).
  - reflexivity.
  - intros [|[|[|i]]] a Ha Hm; cbn in Ha.
    + exact Ha.
    + injection Ha as <-. discriminate Hm.
    + exact Ha.
    + destruct i; discriminate Ha.
Defined.

Lemma aperture_body_ok
  (ap : Aperture.table) (sv : Survey.table) (scale : R)
  (i : nat) (a : Aperture.row) (f : Survey.row) :
  nth_error ap i = Some a -> nth_error sv i = Some f ->
  length (Aperture.polygon_x_discrete a)
  = length (Aperture.polygon_y_discrete a) ->
  (xs_i <- Py.getitem (map Aperture.polygon_x_discrete ap) i ;;
   ys_i <- Py.getitem (map Aperture.polygon_y_discrete ap) i ;;
   sx_i <- Py.getitem (map Survey.X sv) i ;;
   sz_i <- Py.getitem (map Survey.Z sv) i ;;
   sy_i <- Py.getitem (map Survey.Y sv) i ;;
   theta_i <- Py.getitem (map Survey.theta sv) i ;;
   make_screen (Vec.scale_r xs_i scale) (Vec.scale_r ys_i scale)
               sx_i sz_i sy_i theta_i)
  = Py.Ok (slice_screen scale (a, f)).
Proof.
  intros Ha Hf Hlen.
  rewrite (getitem_map _ _ _ _ Ha). cbn [Py.bind].
  rewrite (getitem_map _ _ _ _ Ha). cbn [Py.bind].
  rewrite (getitem_map _ _ _ _ Hf). cbn [Py.bind].
  rewrite (getitem_map _ _ _ _ Hf). cbn [Py.bind].
  rewrite (getitem_map _ _ _ _ Hf). cbn [Py.bind].
  rewrite (getitem_map _ _ _ _ Hf). cbn [Py.bind].
  apply make_screen_placed. unfold Vec.scale_r. now rewrite !length_map.
Qed.

Lemma aperture_body_index_error
  (ap : Aperture.table) (sv : Survey.table) (scale : R)
  (i : nat) (a : Aperture.row) :
  nth_error ap i = Some a -> (length sv <= i)%nat ->
  (xs_i <- Py.getitem (map Aperture.polygon_x_discrete ap) i ;;
   ys_i <- Py.getitem (map Aperture.polygon_y_discrete ap) i ;;
   sx_i <- Py.getitem (map Survey.X sv) i ;;
   sz_i <- Py.getitem (map Survey.Z sv) i ;;
   sy_i <- Py.getitem (map Survey.Y sv) i ;;
   theta_i <- Py.getitem (map Survey.theta sv) i ;;
   make_screen (Vec.scale_r xs_i scale) (Vec.scale_r ys_i scale)
               sx_i sz_i sy_i theta_i)
  = Py.Raise Py.IndexError.
Proof.
  intros Ha Hi.
  rewrite (getitem_map _ _ _ _ Ha). cbn [Py.bind].
  rewrite (getitem_map _ _ _ _ Ha). cbn [Py.bind].
  unfold Py.getitem at 1.
  assert (Hnone : nth_error (map Survey.X sv) i = None)
    by (apply nth_error_None; now rewrite length_map).
  now rewrite Hnone.
Qed.

(** X16: when the survey selection is shorter than the aperture one and a
    valid aperture row lies beyond its end, the aperture driver raises
    [IndexError] (the valid rows having polygons of matching coordinate
    arrays). *)
Theorem aperture_survey_too_short
  (ap : Aperture.table) (sv : Survey.table) (close : bool) (scale : R) :
  (forall a, In a ap -> Aperture.aperture_mask a = true ->
             length (Aperture.polygon_x_discrete a)
             = length (Aperture.polygon_y_discrete a)) ->
  (exists i a, nth_error ap i = Some a
               /\ Aperture.aperture_mask a = true
               /\ (length sv <= i)%nat) ->
  aperture_cross_sections ap sv scale = Py.Raise Py.IndexError
  /\ plot_apertures ap sv close scale = Py.Raise Py.IndexError.
Proof.
  intros Hpoly [i0 [a0 [Ha0 [Hm0 Hi0]]]].
  assert (H : aperture_cross_sections ap sv scale = Py.Raise Py.IndexError).
  { unfold aperture_cross_sections. apply comprehension_raise.
    - intros i Hi. apply in_where in Hi. destruct Hi as [a [Ha Hm]].
      destruct (nth_error sv i) as [f|] eqn:Hf.
      + left. eexists. apply (aperture_body_ok ap sv scale i a f Ha Hf).
        apply Hpoly; [apply (nth_error_In _ _ Ha) | exact Hm].
      + right. apply (aperture_body_index_error ap sv scale i a Ha).
        now apply nth_error_None.
    - exists i0. split; [apply in_where; now exists a0|].
      now apply (aperture_body_index_error ap sv scale i0 a0). }
  split; [exact H|]. unfold plot_apertures. now rewrite H.
Qed.

Lemma aperture_survey_too_short_witness :
  let ap := [ Aperture.mk_row [1; 0; -1] [0; 1; 0] true;
              Aperture.mk_row [] [0] false;
              Aperture.mk_row [2; 0; -2] [0; 2; 0] true ]%R in
  let sv := [ Survey.mk_row 0 0 0 0; Survey.mk_row 0 0 1 0 ]%R in
  aperture_cross_sections ap sv 300 = Py.Raise Py.IndexError
  /\ plot_apertures ap sv true 300 = Py.Raise Py.IndexError.
Proof.
  intros ap sv. apply (aperture_survey_too_short ap sv true 300).
  - intros a [<-|[<-|[<-|[]]]] Hm; try reflexivity. discriminate Hm.
  - exists 2%nat. eexists. split; [reflexivity|].
    split; [reflexivity | simpl; lia].
Defined.

Lemma aperture_cross_sections_ok
  (ap : Aperture.table) (sv : Survey.table) (scale : R) :
  (length ap <= length sv)%nat ->
  (forall a, In a ap -> Aperture.aperture_mask a = true ->
             length (Aperture.polygon_x_discrete a)
             = length (Aperture.polygon_y_discrete a)) ->
  aperture_cross_sections ap sv scale
  = Py.Ok (map (slice_screen scale) (filter valid_slice (combine ap sv))).
Proof.
  intros Hlen Hpoly.
  assert (Hmask : map Aperture.aperture_mask ap
                  = map valid_slice (combine ap sv)).
  { rewrite <- (map_fst_combine ap sv Hlen) at 1. now rewrite map_map. }
  unfold aperture_cross_sections, Np.where_. rewrite Hmask.
  apply comprehension_where. intros i [a f] Hi Hvalid. cbn [Nat.add].
  pose proof (nth_error_In _ _ Hi) as Hin.
  apply nth_error_combine in Hi. destruct Hi as [Ha Hf].
  apply (aperture_body_ok ap sv scale i a f Ha Hf).
  apply Hpoly; [apply (in_combine_l _ _ _ _ Hin) | exact Hvalid].
Qed.

Lemma valid_slices_count (ap : Aperture.table) (sv : Survey.table) :
  (length ap <= length sv)%nat ->
  length (filter valid_slice (combine ap sv))
  = length (filter Aperture.aperture_mask ap).
Proof.
  intro Hlen. rewrite <- (length_map fst). unfold valid_slice.
  now rewrite (map_fst_filter Aperture.aperture_mask), map_fst_combine.
Qed.

Lemma slice_screen_length (scale : R) (a : Aperture.row) (f : Survey.row) :
  length (Aperture.polygon_x_discrete a)
  = length (Aperture.polygon_y_discrete a) ->
  length (slice_screen scale (a, f))
  = length (Aperture.polygon_x_discrete a).
Proof.
  intro Hlen. unfold slice_screen. rewrite length_map.
  rewrite zip_xz_length; unfold Vec.scale_r; now rewrite !length_map.
Qed.

(** X17: when the survey selection covers the aperture one, at least two
    rows are valid and all valid polygons have the same [P >= 2] points,
    the aperture driver returns a mesh whose vertices are the cross-sections
    of the [V] valid rows in table order, [V * P] in all, with
    [P * (V - 1) - 1] faces when closed and [(P - 1) * (V - 1)] when
    open. *)
Theorem plot_apertures_mesh
  (ap : Aperture.table) (sv : Survey.table) (close : bool) (scale : R)
  (P : nat) :
  (length ap <= length sv)%nat ->
  (forall a, In a ap -> Aperture.aperture_mask a = true ->
             length (Aperture.polygon_x_discrete a) = P
             /\ length (Aperture.polygon_y_discrete a) = P) ->
  (2 <= P)%nat ->
  let V := length (filter Aperture.aperture_mask ap) in
  (2 <= V)%nat ->
  exists m,
    plot_apertures ap sv close scale = Py.Ok m
    /\ Pv.points m
       = concat (map (slice_screen scale)
                     (filter valid_slice (combine ap sv)))
    /\ length (Pv.points m) = (V * P)%nat
    /\ n_faces m
       = Some (if close then P * (V - 1) - 1 else (P - 1) * (V - 1))%nat.
Proof.
  intros Hlen Hpoly HP V HV.
  set (polys := map (slice_screen scale)
                    (filter valid_slice (combine ap sv))).
  assert (HlenV : length polys = V).
  { unfold polys. rewrite length_map. now apply valid_slices_count. }
  assert (Hall : forall p, In p polys -> length p = P).
  { intros p Hp. unfold polys in Hp. apply in_map_iff in Hp.
    destruct Hp as [[a f] [<- Haf]]. apply filter_In in Haf.
    destruct Haf as [Hin Hm]. apply in_combine_l in Hin.
    destruct (Hpoly a Hin Hm) as [Hx Hy].
    rewrite slice_screen_length; congruence. }
  assert (Hne : polys <> []) by (destruct polys; [simpl in HlenV; lia|easy]).
  assert (Hfaces : length (face_indices close (Z.of_nat V) (Z.of_nat P))
                   = (if close then P * (V - 1) - 1
                      else (P - 1) * (V - 1))%nat).
  { destruct close;
      [apply length_face_indices_closed
      | rewrite length_face_indices_open_nat; lia]. }
  unfold plot_apertures.
  rewrite aperture_cross_sections_ok;
    [|exact Hlen | intros a Ha Hm; destruct (Hpoly a Ha Hm); congruence].
  cbn [Py.bind]. fold polys.
  rewrite (array_uniform polys P Hne Hall). cbn [Py.bind]. rewrite HlenV.
  rewrite (mesh_from_polygons_ok
             (Np.mk_ndarray [V; P; 3%nat] (Np.flat (concat polys)))
             V P close eq_refl)
    by (rewrite Hfaces; destruct close; nia).
  eexists. split; [reflexivity|]. cbn [Pv.points Np.data].
  rewrite reshape3_flat. split; [reflexivity|]. split.
  - rewrite (length_concat_uniform polys P Hall). now rewrite HlenV.
  - unfold n_faces. rewrite cells_quads. cbn [option_map].
    now rewrite length_map, Hfaces.
Qed.

Lemma plot_apertures_mesh_witness :
  let ap := [ Aperture.mk_row [1; 0; -1] [0; 1; 0] true;
              Aperture.mk_row [] [0] false;
              Aperture.mk_row [2; 0; -2] [0; 2; 0] true ]%R in
  let sv := [ Survey.mk_row 0 0 0 0; Survey.mk_row 0 0 1 0;
              Survey.mk_row 0 0 2 0 ]%R in
  exists m,
    plot_apertures ap sv true 300 = Py.Ok m
    /\ Pv.points m
       = concat (map (slice_screen 300)
                     (filter valid_slice (combine ap sv)))
    /\ length (Pv.points m) = (2 * 3)%nat
    /\ n_faces m = Some (3 * (2 - 1) - 1)%nat.
Proof.
  intros ap sv. apply (plot_apertures_mesh ap sv true 300 3).
  - simpl. lia.
  - intros a [<-|[<-|[<-|[]]]] Hm; try (split; reflexivity).
    discriminate Hm.
  - lia.
  - simpl. lia.
Defined.

(** X18: when the survey selection covers the aperture one and fewer than
    two rows are valid, the aperture driver raises [ValueError]: there is
    no pair of cross-sections to join. *)
Theorem plot_apertures_few_valid
  (ap : Aperture.table) (sv : Survey.table) (close : bool) (scale : R) :
  (length ap <= length sv)%nat ->
  (forall a, In a ap -> Aperture.aperture_mask a = true ->
             length (Aperture.polygon_x_discrete a)
             = length (Aperture.polygon_y_discrete a)) ->
  (length (filter Aperture.aperture_mask ap) < 2)%nat ->
  plot_apertures ap sv close scale = Py.Raise Py.ValueError.
Proof.
  intros Hlen Hpoly HV. unfold plot_apertures.
  rewrite (aperture_cross_sections_ok ap sv scale Hlen Hpoly).
  cbn [Py.bind]. rewrite <- (valid_slices_count ap sv Hlen) in HV.
  destruct (filter valid_slice (combine ap sv)) as [|af [|af' l]];
    [reflexivity | | simpl in HV; lia].
  cbn [map]. unfold Np.array. cbn [forallb].
  rewrite Nat.eqb_refl. cbn [andb Py.bind length].
  set (P := length (slice_screen scale af)).
  set (pts := Np.mk_ndarray _ _).
  rewrite (mesh_from_polygons_shape pts 1 P close eq_refl).
  now rewrite face_indices_few_slices by lia.
Qed.

Lemma plot_apertures_few_valid_witness :
  plot_apertures [ Aperture.mk_row [1; 0; -1] [0; 1; 0] true;
                   Aperture.mk_row [] [0] false ]%R
                 [ Survey.mk_row 0 0 0 0; Survey.mk_row 0 0 1 0 ]%R
                 true 300
  = Py.Raise Py.ValueError.
Proof.
  apply plot_apertures_few_valid.
  - simpl. lia.
  - intros a [<-|[<-|[]]] Hm; [reflexivity | discriminate Hm].
  - simpl. lia.
Defined.

(** ** The rectangular-aperture driver *)

Lemma rectangle_body
  (ap : Extent.table) (sv : Survey.table) (close : bool) (scale : R)
  (i : nat) (e : Extent.row) :
  nth_error ap i = Some e ->
  (x_min_i <- Py.getitem
                (Vec.scale_r (map Extent.x_aper_low ap) scale) i ;;
   x_max_i <- Py.getitem
                (Vec.scale_r (map Extent.x_aper_high ap) scale) i ;;
   y_min_i <- Py.getitem
                (Vec.scale_r (map Extent.y_aper_low ap) scale) i ;;
   y_max_i <- Py.getitem
                (Vec.scale_r (map Extent.y_aper_high ap) scale) i ;;
   sx_i <- Py.getitem (map Survey.X sv) i ;;
   sz_i <- Py.getitem (map Survey.Z sv) i ;;
   sy_i <- Py.getitem (map Survey.Y sv) i ;;
   theta_i <- Py.getitem (map Survey.theta sv) i ;;
   Py.Ok (make_rectangular_screen x_min_i x_max_i y_min_i y_max_i
                                  sx_i sz_i sy_i theta_i close))
  = match nth_error sv i with
    | Some f => Py.Ok (slice_rectangle close scale (e, f))
    | None => Py.Raise Py.IndexError
    end.
Proof.
  intro He. unfold Vec.scale_r. rewrite !map_map.
  rewrite (getitem_map _ _ _ _ He). cbn [Py.bind].
  rewrite (getitem_map _ _ _ _ He). cbn [Py.bind].
  rewrite (getitem_map _ _ _ _ He). cbn [Py.bind].
  rewrite (getitem_map _ _ _ _ He). cbn [Py.bind].
  destruct (nth_error sv i) as [f|] eqn:Hf.
  - rewrite (getitem_map _ _ _ _ Hf). cbn [Py.bind].
    rewrite (getitem_map _ _ _ _ Hf). cbn [Py.bind].
    rewrite (getitem_map _ _ _ _ Hf). cbn [Py.bind].
    rewrite (getitem_map _ _ _ _ Hf). cbn [Py.bind].
    reflexivity.
  - unfold Py.getitem at 1. rewrite nth_error_map, Hf. reflexivity.
Qed.

Lemma rectangular_cross_sections_ok
  (ap : Extent.table) (sv : Survey.table) (close : bool) (scale : R) :
  (length ap <= length sv)%nat ->
  rectangular_cross_sections ap sv close scale
  = Py.Ok (map (slice_rectangle close scale) (combine ap sv)).
Proof.
  intro Hlen. unfold rectangular_cross_sections.
  replace (length (Vec.scale_r (map Extent.x_aper_low ap) scale))
    with (length (combine ap sv))
    by (unfold Vec.scale_r; rewrite length_combine, !length_map; lia).
  apply comprehension_seq. intros i [e f] Hi.
  apply nth_error_combine in Hi. destruct Hi as [He Hf].
  rewrite (rectangle_body ap sv close scale i e He). now rewrite Hf.
Qed.

Lemma slice_rectangle_length (close : bool) (scale : R)
  (ef : Extent.row * Survey.row) :
  length (slice_rectangle close scale ef) = 4%nat.
Proof.
  destruct ef as [e f]. unfold slice_rectangle.
  now rewrite make_rectangular_screen_placed.
Qed.

(** X19: when the survey selection is shorter than the table of extents,
    the rectangular driver raises [IndexError]: it iterates over every
    extent row and reads the survey row of the same index. *)
Theorem rectangular_survey_too_short
  (ap : Extent.table) (sv : Survey.table) (close : bool) (scale : R) :
  (length sv < length ap)%nat ->
  rectangular_cross_sections ap sv close scale = Py.Raise Py.IndexError
  /\ plot_rectangular_apertures ap sv close scale = Py.Raise Py.IndexError.
Proof.
  intro Hlen.
  assert (H : rectangular_cross_sections ap sv close scale
              = Py.Raise Py.IndexError).
  { unfold rectangular_cross_sections.
    replace (length (Vec.scale_r (map Extent.x_aper_low ap) scale))
      with (length ap) by (unfold Vec.scale_r; now rewrite !length_map).
    apply comprehension_raise.
    - intros i Hi. apply in_seq in Hi.
      destruct (nth_error ap i) as [e|] eqn:He;
        [|apply nth_error_None in He; lia].
      rewrite (rectangle_body ap sv close scale i e He).
      destruct (nth_error sv i); [left; now eexists | now right].
    - exists (length sv). split; [apply in_seq; lia|].
      destruct (nth_error ap (length sv)) as [e|] eqn:He;
        [|apply nth_error_None in He; lia].
      rewrite (rectangle_body ap sv close scale _ e He).
      assert (Hnone : nth_error sv (length sv) = None)
        by (apply nth_error_None; lia).
      now rewrite Hnone. }
  split; [exact H|]. unfold plot_rectangular_apertures. now rewrite H.
Qed.

Lemma rectangular_survey_too_short_witness :
  let ap := [ Extent.mk_row (-1) 1 (-2) 2; Extent.mk_row (-1) 1 (-2) 2 ]%R in
  let sv := [ Survey.mk_row 0 0 0 0 ]%R in
  rectangular_cross_sections ap sv true 1000 = Py.Raise Py.IndexError
  /\ plot_rectangular_apertures ap sv true 1000 = Py.Raise Py.IndexError.
Proof.
  intros ap sv. apply (rectangular_survey_too_short ap sv true 1000).
  simpl. lia.
Defined.

Lemma plot_rectangular_apertures_ok
  (ap : Extent.table) (sv : Survey.table) (close : bool) (scale : R) :
  (length ap <= length sv)%nat -> (2 <= length ap)%nat ->
  let polys := map (slice_rectangle close scale) (combine ap sv) in
  plot_rectangular_apertures ap sv close scale
  = Py.Ok (Pv.mk (concat polys)
                 (concat (map (quad 4)
                              (face_indices close (Z.of_nat (length ap))
                                            4)))).
Proof.
  intros Hlen Hn polys. unfold plot_rectangular_apertures.
  rewrite (rectangular_cross_sections_ok ap sv close scale Hlen).
  cbn [Py.bind]. fold polys.
  assert (HlenN : length polys = length ap)
    by (unfold polys; rewrite length_map, length_combine; lia).
  assert (Hall : forall p, In p polys -> length p = 4%nat).
  { intros p Hp. unfold polys in Hp. apply in_map_iff in Hp.
    destruct Hp as [ef [<- _]]. apply slice_rectangle_length. }
  assert (Hne : polys <> []) by (destruct polys; [simpl in HlenN; lia|easy]).
  rewrite (array_uniform polys 4 Hne Hall). cbn [Py.bind]. rewrite HlenN.
  rewrite (mesh_from_polygons_ok
             (Np.mk_ndarray [length ap; 4%nat; 3%nat]
                            (Np.flat (concat polys)))
             (length ap) 4 close eq_refl).
  - cbn [Np.data]. now rewrite reshape3_flat.
  - destruct close;
      [rewrite length_face_indices_closed
      | rewrite length_face_indices_open_nat]; lia.
Qed.

(** X20: when the survey selection covers the [n >= 2] extent rows, the
    rectangular driver returns a mesh of [4 * n] vertices, with
    [4 * (n - 1) - 1] faces when closed and [3 * (n - 1)] when open. *)
Theorem plot_rectangular_apertures_mesh
  (ap : Extent.table) (sv : Survey.table) (close : bool) (scale : R) :
  (length ap <= length sv)%nat -> (2 <= length ap)%nat ->
  exists m,
    plot_rectangular_apertures ap sv close scale = Py.Ok m
    /\ length (Pv.points m) = (4 * length ap)%nat
    /\ n_faces m
       = Some (if close then 4 * (length ap - 1) - 1
               else 3 * (length ap - 1))%nat.
Proof.
  intros Hlen Hn. eexists.
  split; [now apply plot_rectangular_apertures_ok|].
  cbn [Pv.points]. split.
  - rewrite (length_concat_uniform _ 4).
    + rewrite length_map, length_combine. lia.
    + intros p Hp. apply in_map_iff in Hp.
      destruct Hp as [ef [<- _]]. apply slice_rectangle_length.
  - unfold n_faces. rewrite cells_quads. cbn [option_map].
    rewrite length_map. change 4%Z with (Z.of_nat 4).
    destruct close;
      [rewrite length_face_indices_closed
      | rewrite length_face_indices_open_nat]; f_equal; lia.
Qed.

Lemma plot_rectangular_apertures_mesh_witness :
  let ap := [ Extent.mk_row (-1) 1 (-2) 2; Extent.mk_row (-1) 1 (-2) 2;
              Extent.mk_row (-1) 1 (-2) 2 ]%R in
  let sv := [ Survey.mk_row 0 0 0 0; Survey.mk_row 0 0 1 0;
              Survey.mk_row 0 0 2 0 ]%R in
  exists m,
    plot_rectangular_apertures ap sv false 1000 = Py.Ok m
    /\ length (Pv.points m) = (4 * 3)%nat
    /\ n_faces m = Some (3 * (3 - 1))%nat.
Proof.
  intros ap sv.
  apply (plot_rectangular_apertures_mesh ap sv false 1000); simpl; lia.
Defined.

(** X21: in the open variant of the rectangular driver, the first and the
    last corner of every cross-section sit on the vertical through the
    origin of their survey frame, at the heights of the lower and of the
    upper extent: vertices [4 i] and [4 i + 3] of the mesh are
    (X, Z, Y + y_low * scale) and (X, Z, Y + y_high * scale), whatever
    [x_aper_high] and [theta] are. *)
Theorem open_rectangles_on_axis
  (ap : Extent.table) (sv : Survey.table) (scale : R) :
  (length ap <= length sv)%nat -> (2 <= length ap)%nat ->
  exists m,
    plot_rectangular_apertures ap sv false scale = Py.Ok m
    /\ forall i e f,
         nth_error ap i = Some e -> nth_error sv i = Some f ->
         nth_error (Pv.points m) (4 * i)
         = Some (Survey.X f, Survey.Z f,
                 (Survey.Y f + Extent.y_aper_low e * scale)%R)
         /\ nth_error (Pv.points m) (4 * i + 3)
            = Some (Survey.X f, Survey.Z f,
                    (Survey.Y f + Extent.y_aper_high e * scale)%R).
Proof.
  intros Hlen Hn. eexists.
  split; [now apply plot_rectangular_apertures_ok|].
  intros i e f He Hf. cbn [Pv.points].
  pose proof (nth_error_combine_both _ _ _ _ _ He Hf) as Hef.
  assert (Hall : forall p,
             In p (map (slice_rectangle false scale) (combine ap sv)) ->
             length p = 4%nat).
  { intros p Hp. apply in_map_iff in Hp.
    destruct Hp as [ef [<- _]]. apply slice_rectangle_length. }
  assert (Hpoly : nth_error (map (slice_rectangle false scale)
                                 (combine ap sv)) i
                  = Some (slice_rectangle false scale (e, f)))
    by apply (map_nth_error _ _ _ Hef).
  replace (4 * i)%nat with (4 * i + 0)%nat at 1 by lia.
  rewrite !(nth_error_concat_uniform _ 4 i _ _ Hall Hpoly) by lia.
  unfold slice_rectangle. rewrite make_rectangular_screen_placed.
  unfold rectangle_local, place. cbn [map nth_error].
  split; f_equal; (apply f_equal2; [apply f_equal2|]); ring.
Qed.

Lemma open_rectangles_on_axis_witness :
  let ap := [ Extent.mk_row (-1) 1 (-2) 2; Extent.mk_row (-1) 1 (-2) 2 ]%R in
  let sv := [ Survey.mk_row 5 6 7 1; Survey.mk_row 5 6 8 1 ]%R in
  exists m,
    plot_rectangular_apertures ap sv false 1000 = Py.Ok m
    /\ forall i e f,
         nth_error ap i = Some e -> nth_error sv i = Some f ->
         nth_error (Pv.points m) (4 * i)
         = Some (Survey.X f, Survey.Z f,
                 (Survey.Y f + Extent.y_aper_low e * 1000)%R)
         /\ nth_error (Pv.points m) (4 * i + 3)
            = Some (Survey.X f, Survey.Z f,
                    (Survey.Y f + Extent.y_aper_high e * 1000)%R).
Proof.
  intros ap sv. apply (open_rectangles_on_axis ap sv 1000); simpl; lia.
Defined.

(** ** More on the envelope sizer *)

Lemma envelope_term_zero_iff (nemitt gamma0 beta d : R) :
  (0 < nemitt)%R -> (0 < gamma0)%R -> (0 <= beta)%R ->
  (n_sigmas * sqrt (nemitt / gamma0 * beta) + Rabs d * sigma_delta)%R = 0%R
  <-> beta = 0%R /\ d = 0%R.
Proof.
  intros Hn Hg Hb.
  assert (Hq : (0 < nemitt / gamma0)%R) by now apply Rdiv_lt_0_compat.
  split.
  - intro H.
    assert (H1 : (0 <= n_sigmas * sqrt (nemitt / gamma0 * beta))%R).
    { apply Rmult_le_pos; [unfold n_sigmas; lra | apply sqrt_pos]. }
    assert (H2 : (0 <= Rabs d * sigma_delta)%R).
    { apply Rmult_le_pos; [apply Rabs_pos | unfold sigma_delta; lra]. }
    destruct (Rplus_eq_0 _ _ H1 H2 H) as [Hs Hd]. split.
    + assert (Hsq : sqrt (nemitt / gamma0 * beta) = 0%R).
      { unfold n_sigmas in Hs. lra. }
      apply sqrt_eq_0 in Hsq; [|now apply Rmult_le_pos; [lra|]].
      apply Rmult_integral in Hsq. destruct Hsq; lra.
    + assert (Ha : Rabs d = 0%R) by (unfold sigma_delta in Hd; lra).
      destruct (Req_dec d 0) as [Hz|Hnz]; [exact Hz|].
      now elim (Rabs_no_R0 d Hnz).
  - intros [-> ->]. rewrite Rmult_0_r, sqrt_0, Rabs_R0. ring.
Qed.

Lemma nemitt_pos : (0 < nemitt_x)%R /\ (0 < nemitt_y)%R.
Proof. unfold nemitt_x, nemitt_y. split; lra. Qed.

(** X22: for a positive [gamma0] and a row of non-negative beta functions,
    the half-width [sigx] of that row is at least its dispersive part
    [|dx| * sigma_delta], and it vanishes exactly when both [betx] and
    [dx] do; likewise for [sigy]. *)
Theorem envelope_vanishes_iff
  (sv : Survey.table) (tw : Twiss.table) (i : nat) (r : Twiss.row) :
  (0 < Twiss.gamma0 tw)%R ->
  nth_error (Twiss.rows tw) i = Some r ->
  (0 <= Twiss.betx r)%R -> (0 <= Twiss.bety r)%R ->
  let b := compute_beam_size sv tw in
  exists sigx_i sigy_i,
    nth_error (bs_sigx b) i = Some sigx_i
    /\ nth_error (bs_sigy b) i = Some sigy_i
    /\ (Rabs (Twiss.dx r) * sigma_delta <= sigx_i)%R
    /\ (Rabs (Twiss.dy r) * sigma_delta <= sigy_i)%R
    /\ (sigx_i = 0%R <-> Twiss.betx r = 0%R /\ Twiss.dx r = 0%R)
    /\ (sigy_i = 0%R <-> Twiss.bety r = 0%R /\ Twiss.dy r = 0%R).
Proof.
  intros Hg Hr Hbx Hby b. subst b.
  destruct nemitt_pos as [Hnx Hny].
  exists (sigma_x (Twiss.gamma0 tw) r), (sigma_y (Twiss.gamma0 tw) r).
  split; [rewrite sigx_rows; apply (map_nth_error _ _ _ Hr)|].
  split; [rewrite sigy_rows; apply (map_nth_error _ _ _ Hr)|].
  assert (Hroot : forall v, (0 <= n_sigmas * sqrt v)%R).
  { intro v. apply Rmult_le_pos; [unfold n_sigmas; lra | apply sqrt_pos]. }
  unfold sigma_x, sigma_y.
  split; [pose proof (Hroot (nemitt_x / Twiss.gamma0 tw * Twiss.betx r)%R);
          lra|].
  split; [pose proof (Hroot (nemitt_y / Twiss.gamma0 tw * Twiss.bety r)%R);
          lra|].
  split; now apply envelope_term_zero_iff.
Qed.

Lemma envelope_vanishes_iff_witness :
  let tw := Twiss.mk [ Twiss.mk_row 0 0 0 4 9 (-1) 2;
                       Twiss.mk_row 1 0 0 0 1 0 0 ]%R 7000 in
  let r := Twiss.mk_row 1 0 0 0 1 0 0 in
  let b := compute_beam_size [] tw in
  exists sigx_i sigy_i,
    nth_error (bs_sigx b) 1 = Some sigx_i
    /\ nth_error (bs_sigy b) 1 = Some sigy_i
    /\ (Rabs (Twiss.dx r) * sigma_delta <= sigx_i)%R
    /\ (Rabs (Twiss.dy r) * sigma_delta <= sigy_i)%R
    /\ (sigx_i = 0%R <-> Twiss.betx r = 0%R /\ Twiss.dx r = 0%R)
    /\ (sigy_i = 0%R <-> Twiss.bety r = 0%R /\ Twiss.dy r = 0%R).
Proof.
  intros tw r.
  apply (envelope_vanishes_iff [] tw 1 r);
    [simpl; lra | reflexivity | simpl; lra | simpl; lra].
Defined.

(** X23: within one table of positive [gamma0], a row with the larger beta
    function and the larger dispersion in absolute value has the larger
    half-width. *)
Theorem envelope_monotone
  (sv : Survey.table) (tw : Twiss.table) (i j : nat) (ri rj : Twiss.row) :
  (0 < Twiss.gamma0 tw)%R ->
  nth_error (Twiss.rows tw) i = Some ri ->
  nth_error (Twiss.rows tw) j = Some rj ->
  (0 <= Twiss.betx ri <= Twiss.betx rj)%R ->
  (Rabs (Twiss.dx ri) <= Rabs (Twiss.dx rj))%R ->
  let b := compute_beam_size sv tw in
  exists sigx_i sigx_j,
    nth_error (bs_sigx b) i = Some sigx_i
    /\ nth_error (bs_sigx b) j = Some sigx_j
    /\ (sigx_i <= sigx_j)%R.
Proof.
  intros Hg Hi Hj Hbeta Hd b. subst b.
  destruct nemitt_pos as [Hnx _].
  exists (sigma_x (Twiss.gamma0 tw) ri), (sigma_x (Twiss.gamma0 tw) rj).
  split; [rewrite sigx_rows; apply (map_nth_error _ _ _ Hi)|].
  split; [rewrite sigx_rows; apply (map_nth_error _ _ _ Hj)|].
  unfold sigma_x.
  assert (Hq : (0 < nemitt_x / Twiss.gamma0 tw)%R)
    by now apply Rdiv_lt_0_compat.
  assert (Hs : (sqrt (nemitt_x / Twiss.gamma0 tw * Twiss.betx ri)
                <= sqrt (nemitt_x / Twiss.gamma0 tw * Twiss.betx rj))%R).
  { apply sqrt_le_1_alt. apply Rmult_le_compat_l; lra. }
  unfold n_sigmas, sigma_delta. lra.
Qed.

Lemma envelope_monotone_witness :
  let tw := Twiss.mk [ Twiss.mk_row 0 0 0 4 9 (-1) 2;
                       Twiss.mk_row 1 0 0 0 1 0 0 ]%R 7000 in
  let b := compute_beam_size [] tw in
  exists sigx_i sigx_j,
    nth_error (bs_sigx b) 1 = Some sigx_i
    /\ nth_error (bs_sigx b) 0 = Some sigx_j
    /\ (sigx_i <= sigx_j)%R.
Proof.
  intros tw.
  apply (envelope_monotone [] tw 1 0 (Twiss.mk_row 1 0 0 0 1 0 0)
                           (Twiss.mk_row 0 0 0 4 9 (-1) 2)).
  - simpl. lra.
  - reflexivity.
  - reflexivity.
  - simpl. lra.
  - simpl. rewrite Rabs_R0. apply Rabs_pos.
Defined.
